(** * Serenity epoch processing of py-evm's beacon chain

    A shallow embedding of [eth2/beacon/helpers.py] and of
    [eth2/beacon/state_machines/forks/serenity/epoch_processing.py].

    Python integers are unbounded, so every slot, epoch, balance, index and
    the justification bitfield is a [Z]; [//] and [%] are floor division and
    floor remainder, which is what [Z.div] and [Z.modulo] compute for a
    divisor that is not zero.  Code that can raise returns a [result]. *)

From Stdlib Require Import ZArith Lia Bool Sorted.
From Stdlib Require Import Strings.Byte.
From stdpp Require Import base list numbers.

#[local] Open Scope Z_scope.

(** ** Exceptions *)

Inductive exn : Set :=
| ValidationError
| IndexError
| ZeroDivisionError
| OverflowError
| ValueError
| NoWinningRootError.

Inductive result (A : Type) : Type :=
| Ok (a : A)
| Raise (e : exn).

Arguments Ok {A} a.
Arguments Raise {A} e.

#[global] Instance result_ret : MRet result := @Ok.

#[global] Instance result_bind : MBind result :=
  λ A B f m, match m with Ok a => f a | Raise e => Raise e end.

(** A loop whose body can raise: the first exception leaves the loop. *)
Fixpoint foldM {A B} (f : A → B → result A) (a : A) (l : list B) : result A :=
  match l with
  | [] => Ok a
  | x :: l' => a' ← f a x; foldM f a' l'
  end.

(** ** Python primitives *)

Module Py.

(** [a // b] *)
Definition floordiv (a b : Z) : result Z :=
  if b =? 0 then Raise ZeroDivisionError else Ok (a / b).

(** [a % b] *)
Definition modulo (a b : Z) : result Z :=
  if b =? 0 then Raise ZeroDivisionError else Ok (a mod b).

(** [l[i]] on a tuple: a negative index counts from the end, an index
    outside [-len(l), len(l)) raises IndexError. *)
Definition getitem {A} (l : list A) (i : Z) : result A :=
  let n := Z.of_nat (length l) in
  let j := if i <? 0 then i + n else i in
  if (0 <=? j) && (j <? n) then
    match l !! Z.to_nat j with
    | Some x => Ok x
    | None => Raise IndexError
    end
  else Raise IndexError.

(** [range(a, b)] *)
Definition range (a b : Z) : list Z := seqZ a (b - a).

Definition byte_of_Z (z : Z) : byte :=
  default x00 (Byte.of_N (Z.to_N (z mod 256))).

Fixpoint le_bytes (n : nat) (z : Z) : list byte :=
  match n with
  | O => []
  | S n' => byte_of_Z z :: le_bytes n' (z / 256)
  end.

(** [z.to_bytes(n, byteorder)]: OverflowError for a negative [z] and for a
    [z] that does not fit in [n] bytes. *)
Definition to_bytes_little (z : Z) (n : nat) : result (list byte) :=
  if (0 <=? z) && (z <? 256 ^ Z.of_nat n) then Ok (le_bytes n z)
  else Raise OverflowError.

Definition to_bytes_big (z : Z) (n : nat) : result (list byte) :=
  b ← to_bytes_little z n; Ok (rev b).

End Py.

(** ** Data model *)

Definition Hash32 : Type := list byte.

(** Modelled from the spec: the class ValidatorRecord is not among the
    sources; it "has an activation/exit epoch pair". *)
Record ValidatorRecord : Type := {
  activation_epoch : Z;
  exit_epoch : Z
}.

(** Modelled from the spec: the class CrosslinkRecord is not among the
    sources; it is "{epoch, shard_block_root}", and the code builds it with
    these two keywords. *)
Record CrosslinkRecord : Type := {
  epoch : Z;
  shard_block_root : Hash32
}.

(** Modelled from the spec: the class AttestationData is not among the
    sources; it is "{slot, shard, justified_epoch, ...}".  These are the
    fields the code reads. *)
Module AttestationData.
Record t : Type := {
  slot : Z;
  shard : Z;
  justified_epoch : Z
}.
End AttestationData.

(** Modelled from the spec: the class Attestation is not among the sources;
    the code reads its [data]. *)
Record Attestation : Type := {
  data : AttestationData.t
}.

(** Modelled from the spec: the class Fork is not among the sources; it has
    "current/previous version + activation epoch". *)
Module Fork.
Record t : Type := {
  previous_version : Z;
  current_version : Z;
  epoch : Z
}.
End Fork.

(** Modelled from the spec: the class BeaconConfig is not among the sources;
    these are the protocol parameters the spec lists. *)
Record BeaconConfig : Type := {
  EPOCH_LENGTH : Z;
  SHARD_COUNT : Z;
  TARGET_COMMITTEE_SIZE : Z;
  MAX_DEPOSIT_AMOUNT : Z;
  MIN_SEED_LOOKAHEAD : Z;
  ACTIVATION_EXIT_DELAY : Z;
  LATEST_ACTIVE_INDEX_ROOTS_LENGTH : Z;
  LATEST_RANDAO_MIXES_LENGTH : Z;
  LATEST_SLASHED_EXIT_LENGTH : Z;
  GENESIS_EPOCH : Z
}.

(** [CommitteeConfig(config)] is a view of the same parameters. *)
Definition CommitteeConfig (config : BeaconConfig) : BeaconConfig := config.

(** Modelled from the spec: the class BeaconState is not among the sources;
    these are the fields the spec lists, which are the fields the code reads
    and replaces. *)
Module State.
Record BeaconState : Type := MkBeaconState {
  slot : Z;
  validator_registry : list ValidatorRecord;
  validator_balances : list Z;
  latest_block_roots : list Hash32;
  latest_randao_mixes : list Hash32;
  latest_active_index_roots : list Hash32;
  latest_crosslinks : list CrosslinkRecord;
  latest_slashed_balances : list Z;
  latest_attestations : list Attestation;
  justification_bitfield : Z;
  justified_epoch : Z;
  previous_justified_epoch : Z;
  finalized_epoch : Z;
  current_calculation_epoch : Z;
  previous_calculation_epoch : Z;
  current_epoch_seed : Hash32;
  previous_epoch_seed : Hash32;
  current_epoch_start_shard : Z;
  previous_epoch_start_shard : Z;
  validator_registry_update_epoch : Z;
  fork : Fork.t
}.
End State.
Export State.

(** ** [state.copy(field=value, ...)]

    One setter per field the transition functions replace; a [copy] with
    several keywords is the composition of its setters. *)

Definition set_latest_randao_mixes (v : list Hash32) (s : BeaconState) : BeaconState :=
  let 'MkBeaconState a b c d _ f g h i j k l m n o p q r t u w := s in
  MkBeaconState a b c d v f g h i j k l m n o p q r t u w.

Definition set_latest_active_index_roots (v : list Hash32) (s : BeaconState) : BeaconState :=
  let 'MkBeaconState a b c d e _ g h i j k l m n o p q r t u w := s in
  MkBeaconState a b c d e v g h i j k l m n o p q r t u w.

Definition set_latest_crosslinks (v : list CrosslinkRecord) (s : BeaconState) : BeaconState :=
  let 'MkBeaconState a b c d e f _ h i j k l m n o p q r t u w := s in
  MkBeaconState a b c d e f v h i j k l m n o p q r t u w.

Definition set_latest_slashed_balances (v : list Z) (s : BeaconState) : BeaconState :=
  let 'MkBeaconState a b c d e f g _ i j k l m n o p q r t u w := s in
  MkBeaconState a b c d e f g v i j k l m n o p q r t u w.

Definition set_latest_attestations (v : list Attestation) (s : BeaconState) : BeaconState :=
  let 'MkBeaconState a b c d e f g h _ j k l m n o p q r t u w := s in
  MkBeaconState a b c d e f g h v j k l m n o p q r t u w.

Definition set_justification_bitfield (v : Z) (s : BeaconState) : BeaconState :=
  let 'MkBeaconState a b c d e f g h i _ k l m n o p q r t u w := s in
  MkBeaconState a b c d e f g h i v k l m n o p q r t u w.

Definition set_justified_epoch (v : Z) (s : BeaconState) : BeaconState :=
  let 'MkBeaconState a b c d e f g h i j _ l m n o p q r t u w := s in
  MkBeaconState a b c d e f g h i j v l m n o p q r t u w.

Definition set_previous_justified_epoch (v : Z) (s : BeaconState) : BeaconState :=
  let 'MkBeaconState a b c d e f g h i j k _ m n o p q r t u w := s in
  MkBeaconState a b c d e f g h i j k v m n o p q r t u w.

Definition set_finalized_epoch (v : Z) (s : BeaconState) : BeaconState :=
  let 'MkBeaconState a b c d e f g h i j k l _ n o p q r t u w := s in
  MkBeaconState a b c d e f g h i j k l v n o p q r t u w.

Definition set_current_calculation_epoch (v : Z) (s : BeaconState) : BeaconState :=
  let 'MkBeaconState a b c d e f g h i j k l m _ o p q r t u w := s in
  MkBeaconState a b c d e f g h i j k l m v o p q r t u w.

Definition set_previous_calculation_epoch (v : Z) (s : BeaconState) : BeaconState :=
  let 'MkBeaconState a b c d e f g h i j k l m n _ p q r t u w := s in
  MkBeaconState a b c d e f g h i j k l m n v p q r t u w.

Definition set_current_epoch_seed (v : Hash32) (s : BeaconState) : BeaconState :=
  let 'MkBeaconState a b c d e f g h i j k l m n o _ q r t u w := s in
  MkBeaconState a b c d e f g h i j k l m n o v q r t u w.

Definition set_previous_epoch_seed (v : Hash32) (s : BeaconState) : BeaconState :=
  let 'MkBeaconState a b c d e f g h i j k l m n o p _ r t u w := s in
  MkBeaconState a b c d e f g h i j k l m n o p v r t u w.

Definition set_current_epoch_start_shard (v : Z) (s : BeaconState) : BeaconState :=
  let 'MkBeaconState a b c d e f g h i j k l m n o p q _ t u w := s in
  MkBeaconState a b c d e f g h i j k l m n o p q v t u w.

Definition set_previous_epoch_start_shard (v : Z) (s : BeaconState) : BeaconState :=
  let 'MkBeaconState a b c d e f g h i j k l m n o p q r _ u w := s in
  MkBeaconState a b c d e f g h i j k l m n o p q r v u w.

(** Modelled from the spec: update_tuple_item of eth2._utils.tuple is not
    among the sources.  The code uses it to replace one slot of a tuple,
    returning the new tuple; the spec has these tuples as fixed-capacity
    arrays, so a slot outside the tuple is an error and not an append. *)
Definition update_tuple_item {A} (tuple_data : list A) (index : Z) (new_value : A)
  : result (list A) :=
  let n := Z.of_nat (length tuple_data) in
  let j := if index <? 0 then index + n else index in
  if (0 <=? j) && (j <? n) then Ok (<[Z.to_nat j := new_value]> tuple_data)
  else Raise ValidationError.

(** Modelled from the spec: validate_epoch_for_active_randao_mix of
    eth2.beacon.validation is not among the sources; the lookup "fails with
    RangeError unless current_epoch - latest_randao_mixes_length < epoch <=
    current_epoch". *)
Definition validate_epoch_for_active_randao_mix
    (state_epoch given_epoch latest_randao_mixes_length : Z) : result unit :=
  if (state_epoch - latest_randao_mixes_length <? given_epoch)
     && (given_epoch <=? state_epoch)
  then Ok tt else Raise ValidationError.

(** Modelled from the spec: validate_epoch_for_active_index_root of
    eth2.beacon.validation is not among the sources; the lookup "fails with
    RangeError unless epoch falls within [current_epoch - length +
    activation_exit_delay + 1, current_epoch + activation_exit_delay]". *)
Definition validate_epoch_for_active_index_root
    (state_epoch given_epoch activation_exit_delay
     latest_active_index_roots_length : Z) : result unit :=
  if (state_epoch - latest_active_index_roots_length + activation_exit_delay + 1
        <=? given_epoch)
     && (given_epoch <=? state_epoch + activation_exit_delay)
  then Ok tt else Raise ValidationError.

(** ** The collaborators

    The methods of BeaconState and ValidatorRecord, the hash function and
    the helpers of committee_helpers, epoch_processing_helpers and
    _utils.numeric are not among the sources.  The transition functions are
    verified for every behaviour of theirs, an exception included. *)
Record Env : Type := {
  (** [state.current_epoch(epoch_length)] *)
  current_epoch : BeaconState → Z → result Z;
  (** [state.previous_epoch(epoch_length, genesis_epoch)] *)
  previous_epoch : BeaconState → Z → Z → result Z;
  (** [state.next_epoch(epoch_length)] *)
  next_epoch : BeaconState → Z → result Z;
  (** [validator.is_active(epoch)] *)
  is_active : ValidatorRecord → Z → bool;
  hash_eth2 : list byte → Hash32;
  is_power_of_two : Z → result bool;
  (** returns (previous, current) *)
  get_epoch_boundary_attesting_balances :
    Z → Z → BeaconState → BeaconConfig → result (Z * Z);
  get_previous_epoch_attestations : BeaconState → Z → Z → result (list Attestation);
  get_current_epoch_attestations : BeaconState → Z → result (list Attestation);
  (** the (committee, shard) pairs of a slot *)
  get_crosslink_committees_at_slot :
    BeaconState → Z → BeaconConfig → result (list (list Z * Z));
  (** state, shard, attestations, max_deposit_amount, committee_config;
      (winning_root, total_attesting_balance) or NoWinningRootError *)
  get_winning_root :
    BeaconState → Z → list Attestation → Z → BeaconConfig → result (Hash32 * Z);
  (** state, shard_count, epoch_length, target_committee_size *)
  get_current_epoch_committee_count : BeaconState → Z → Z → Z → result Z;
  (** [set(l)] as the sequence a [for] loop over it visits: Python leaves
      that order open *)
  set_iteration : list Z → list Z
}.

(** ** eth2/beacon/helpers.py *)

Definition slot_to_epoch (slot epoch_length : Z) : result Z :=
  Py.floordiv slot epoch_length.

Definition get_epoch_start_slot (epoch epoch_length : Z) : Z :=
  epoch * epoch_length.

Definition _get_block_root (latest_block_roots : list Hash32)
    (state_slot slot latest_block_roots_length : Z) : result Hash32 :=
  if state_slot >? slot + latest_block_roots_length then Raise ValidationError
  else if slot >=? state_slot then Raise ValidationError
  else
    i ← Py.modulo slot latest_block_roots_length;
    Py.getitem latest_block_roots i.

Definition get_block_root (state : BeaconState)
    (slot latest_block_roots_length : Z) : result Hash32 :=
  _get_block_root state.(latest_block_roots) state.(State.slot) slot
    latest_block_roots_length.

Definition get_effective_balance (validator_balances : list Z)
    (index max_deposit_amount : Z) : result Z :=
  b ← Py.getitem validator_balances index;
  Ok (Z.min b max_deposit_amount).

(** [sum(get_effective_balance(validator_balances, i, max_deposit_amount)
         for i in indices)] *)
Fixpoint sum_effective_balances (validator_balances : list Z)
    (indices : list Z) (max_deposit_amount : Z) : result Z :=
  match indices with
  | [] => Ok 0
  | i :: rest =>
      b ← get_effective_balance validator_balances i max_deposit_amount;
      s ← sum_effective_balances validator_balances rest max_deposit_amount;
      Ok (b + s)
  end.

Definition get_total_balance (validator_balances : list Z)
    (validator_indices : list Z) (max_deposit_amount : Z) : result Z :=
  sum_effective_balances validator_balances validator_indices max_deposit_amount.

Definition get_fork_version (fork : Fork.t) (epoch : Z) : Z :=
  if epoch <? fork.(Fork.epoch) then fork.(Fork.previous_version)
  else fork.(Fork.current_version).

Definition get_domain (fork : Fork.t) (epoch domain_type : Z) : Z :=
  get_fork_version fork epoch * 4294967296 + domain_type.

Definition is_double_vote (attestation_data_1 attestation_data_2 : AttestationData.t)
    (epoch_length : Z) : result bool :=
  e1 ← slot_to_epoch attestation_data_1.(AttestationData.slot) epoch_length;
  e2 ← slot_to_epoch attestation_data_2.(AttestationData.slot) epoch_length;
  Ok (e1 =? e2).

Definition is_surround_vote (attestation_data_1 attestation_data_2 : AttestationData.t)
    (epoch_length : Z) : result bool :=
  let source_epoch_1 := attestation_data_1.(AttestationData.justified_epoch) in
  let source_epoch_2 := attestation_data_2.(AttestationData.justified_epoch) in
  target_epoch_1 ← slot_to_epoch attestation_data_1.(AttestationData.slot) epoch_length;
  target_epoch_2 ← slot_to_epoch attestation_data_2.(AttestationData.slot) epoch_length;
  Ok ((source_epoch_1 <? source_epoch_2) && (target_epoch_2 <? target_epoch_1)).

Definition get_entry_exit_effect_epoch (epoch activation_exit_delay : Z) : Z :=
  epoch + 1 + activation_exit_delay.

Section Helpers.

Variable env : Env.

Definition get_randao_mix (state : BeaconState)
    (epoch epoch_length latest_randao_mixes_length : Z) : result Hash32 :=
  state_epoch ← current_epoch env state epoch_length;
  _ ← validate_epoch_for_active_randao_mix state_epoch epoch
        latest_randao_mixes_length;
  i ← Py.modulo epoch latest_randao_mixes_length;
  Py.getitem state.(latest_randao_mixes) i.

(** [enumerate(validators)] from index [index] on, filtered *)
Fixpoint active_indices_from (index : Z) (validators : list ValidatorRecord)
    (epoch : Z) : list Z :=
  match validators with
  | [] => []
  | validator :: rest =>
      if is_active env validator epoch
      then index :: active_indices_from (index + 1) rest epoch
      else active_indices_from (index + 1) rest epoch
  end.

Definition get_active_validator_indices (validators : list ValidatorRecord)
    (epoch : Z) : list Z :=
  active_indices_from 0 validators epoch.

Definition get_active_index_root (state : BeaconState)
    (epoch epoch_length activation_exit_delay
     latest_active_index_roots_length : Z) : result Hash32 :=
  state_epoch ← current_epoch env state epoch_length;
  _ ← validate_epoch_for_active_index_root state_epoch epoch
        activation_exit_delay latest_active_index_roots_length;
  i ← Py.modulo epoch latest_active_index_roots_length;
  Py.getitem state.(latest_active_index_roots) i.

Definition generate_seed (state : BeaconState)
    (epoch epoch_length min_seed_lookahead activation_exit_delay
     latest_active_index_roots_length latest_randao_mixes_length : Z)
  : result Hash32 :=
  randao_mix ← get_randao_mix state (epoch - min_seed_lookahead) epoch_length
                 latest_randao_mixes_length;
  active_index_root ← get_active_index_root state epoch epoch_length
                        activation_exit_delay latest_active_index_roots_length;
  epoch_as_bytes ← Py.to_bytes_little epoch 32;
  Ok (hash_eth2 env (randao_mix ++ active_index_root ++ epoch_as_bytes)).

End Helpers.

(** ** eth2/beacon/state_machines/forks/serenity/epoch_processing.py *)

(** *** Justification *)

Definition _get_finalized_epoch
    (justification_bitfield previous_justified_epoch justified_epoch
     finalized_epoch previous_epoch : Z) : Z * Z :=
  let rule_1 :=
    (Z.shiftr justification_bitfield 1 mod 8 =? 7) &&
    (previous_justified_epoch =? previous_epoch - 2) in
  let rule_2 :=
    (Z.shiftr justification_bitfield 1 mod 4 =? 3) &&
    (previous_justified_epoch =? previous_epoch - 1) in
  let rule_3 :=
    (justification_bitfield mod 8 =? 7) &&
    (justified_epoch =? previous_epoch - 1) in
  let rule_4 :=
    (justification_bitfield mod 4 =? 3) &&
    (justified_epoch =? previous_epoch) in
  if rule_4 then (justified_epoch, 4)
  else if rule_3 then (justified_epoch, 3)
  else if rule_2 then (previous_justified_epoch, 2)
  else if rule_1 then (previous_justified_epoch, 1)
  else (finalized_epoch, 0).

(** The bitfield of [process_justification], from the two flags. *)
Definition shifted_bitfield (bitfield : Z)
    (current_epoch_justifiable previous_epoch_justifiable : bool) : Z :=
  let _justification_bitfield := Z.shiftl bitfield 1 in
  if previous_epoch_justifiable && current_epoch_justifiable
  then Z.lor _justification_bitfield 3
  else if previous_epoch_justifiable then Z.lor _justification_bitfield 2
  else if current_epoch_justifiable then Z.lor _justification_bitfield 1
  else _justification_bitfield.

Section EpochProcessing.

Variable env : Env.

(** Returns (current_epoch_justifiable, previous_epoch_justifiable). *)
Definition _current_previous_epochs_justifiable (state : BeaconState)
    (current_epoch previous_epoch : Z) (config : BeaconConfig)
  : result (bool * bool) :=
  let current_epoch_active_validator_indices :=
    get_active_validator_indices env state.(validator_registry) current_epoch in
  let previous_epoch_active_validator_indices :=
    get_active_validator_indices env state.(validator_registry) previous_epoch in
  current_total_balance ←
    get_total_balance state.(validator_balances)
      current_epoch_active_validator_indices config.(MAX_DEPOSIT_AMOUNT);
  previous_total_balance ←
    get_total_balance state.(validator_balances)
      previous_epoch_active_validator_indices config.(MAX_DEPOSIT_AMOUNT);
  '(previous_epoch_boundary_attesting_balance,
    current_epoch_boundary_attesting_balance) ←
    get_epoch_boundary_attesting_balances env current_epoch previous_epoch
      state config;
  let previous_epoch_justifiable :=
    3 * previous_epoch_boundary_attesting_balance >=? 2 * previous_total_balance in
  let current_epoch_justifiable :=
    3 * current_epoch_boundary_attesting_balance >=? 2 * current_total_balance in
  Ok (current_epoch_justifiable, previous_epoch_justifiable).

Definition process_justification (state : BeaconState) (config : BeaconConfig)
  : result BeaconState :=
  current_epoch ← current_epoch env state config.(EPOCH_LENGTH);
  previous_epoch ← previous_epoch env state config.(EPOCH_LENGTH)
                     config.(GENESIS_EPOCH);
  '(current_epoch_justifiable, previous_epoch_justifiable) ←
    _current_previous_epochs_justifiable state current_epoch previous_epoch
      config;
  let justification_bitfield :=
    shifted_bitfield state.(justification_bitfield)
      current_epoch_justifiable previous_epoch_justifiable in
  let new_justified_epoch :=
    if current_epoch_justifiable then current_epoch
    else if previous_epoch_justifiable then previous_epoch
    else state.(justified_epoch) in
  let '(finalized_epoch, _) :=
    _get_finalized_epoch justification_bitfield
      state.(previous_justified_epoch) state.(justified_epoch)
      state.(finalized_epoch) previous_epoch in
  Ok (set_finalized_epoch finalized_epoch
        (set_justification_bitfield justification_bitfield
           (set_justified_epoch new_justified_epoch
              (set_previous_justified_epoch state.(justified_epoch) state)))).

(** *** Crosslinks *)

Definition _filter_attestations_by_shard (attestations : list Attestation)
    (shard : Z) : list Attestation :=
  filter (λ attestation, attestation.(data).(AttestationData.shard) = shard)
    attestations.

(** The body of the inner loop of [process_crosslinks], for one
    (crosslink_committee, shard) pair. *)
Definition crosslink_committee_step (state : BeaconState)
    (config : BeaconConfig) (attestations : list Attestation)
    (latest_crosslinks : list CrosslinkRecord)
    (committee_shard : list Z * Z) : result (list CrosslinkRecord) :=
  let '(crosslink_committee, shard) := committee_shard in
  match
    get_winning_root env state shard
      (_filter_attestations_by_shard attestations shard)
      config.(MAX_DEPOSIT_AMOUNT) (CommitteeConfig config)
  with
  | Raise NoWinningRootError => Ok latest_crosslinks
  | Raise e => Raise e
  | Ok (winning_root, total_attesting_balance) =>
      total_balance ←
        sum_effective_balances state.(validator_balances) crosslink_committee
          config.(MAX_DEPOSIT_AMOUNT);
      if 3 * total_attesting_balance >=? 2 * total_balance then
        current_epoch ← current_epoch env state config.(EPOCH_LENGTH);
        update_tuple_item latest_crosslinks shard
          {| epoch := current_epoch; shard_block_root := winning_root |}
      else Ok latest_crosslinks
  end.

(** The body of the outer loop, for one slot. *)
Definition crosslink_slot_step (state : BeaconState) (config : BeaconConfig)
    (attestations : list Attestation)
    (latest_crosslinks : list CrosslinkRecord) (slot : Z)
  : result (list CrosslinkRecord) :=
  crosslink_committees_at_slot ←
    get_crosslink_committees_at_slot env state slot (CommitteeConfig config);
  foldM (crosslink_committee_step state config attestations)
    latest_crosslinks crosslink_committees_at_slot.

Definition process_crosslinks (state : BeaconState) (config : BeaconConfig)
  : result BeaconState :=
  let latest_crosslinks := state.(latest_crosslinks) in
  previous_epoch_attestations ←
    get_previous_epoch_attestations env state config.(EPOCH_LENGTH)
      config.(GENESIS_EPOCH);
  current_epoch_attestations ←
    get_current_epoch_attestations env state config.(EPOCH_LENGTH);
  previous_epoch ← previous_epoch env state config.(EPOCH_LENGTH)
                     config.(GENESIS_EPOCH);
  let prev_epoch_start_slot :=
    get_epoch_start_slot previous_epoch config.(EPOCH_LENGTH) in
  next_epoch ← next_epoch env state config.(EPOCH_LENGTH);
  let next_epoch_start_slot :=
    get_epoch_start_slot next_epoch config.(EPOCH_LENGTH) in
  latest_crosslinks ←
    foldM
      (crosslink_slot_step state config
         (previous_epoch_attestations ++ current_epoch_attestations))
      latest_crosslinks
      (Py.range prev_epoch_start_slot next_epoch_start_slot);
  Ok (set_latest_crosslinks latest_crosslinks state).

(** *** Validator registry and shuffling seed data *)

(** The loop over [shards]: False as soon as one crosslink is not newer
    than the last registry update. *)
Fixpoint crosslinks_newer_than_update (state : BeaconState) (shards : list Z)
  : result bool :=
  match shards with
  | [] => Ok true
  | shard :: rest =>
      crosslink ← Py.getitem state.(latest_crosslinks) shard;
      if crosslink.(epoch) <=? state.(validator_registry_update_epoch)
      then Ok false
      else crosslinks_newer_than_update state rest
  end.

(** The shards of the current committees, [(start + i) % SHARD_COUNT] for
    [i] in [range(n)], before they are made a set; this raises when
    SHARD_COUNT is zero and there is a shard to compute. *)
Fixpoint committee_shards (start shard_count : Z) (indices : list Z)
  : result (list Z) :=
  match indices with
  | [] => Ok []
  | i :: rest =>
      shard ← Py.modulo (start + i) shard_count;
      shards ← committee_shards start shard_count rest;
      Ok (shard :: shards)
  end.

Definition _check_if_update_validator_registry (state : BeaconState)
    (config : BeaconConfig) : result (bool * Z) :=
  if state.(finalized_epoch) <=? state.(validator_registry_update_epoch)
  then Ok (false, 0)
  else
    num_shards_in_committees ←
      get_current_epoch_committee_count env state config.(SHARD_COUNT)
        config.(EPOCH_LENGTH) config.(TARGET_COMMITTEE_SIZE);
    shards ←
      committee_shards state.(current_epoch_start_shard) config.(SHARD_COUNT)
        (Py.range 0 num_shards_in_committees);
    newer ← crosslinks_newer_than_update state (set_iteration env shards);
    if (newer : bool) then Ok (true, num_shards_in_committees) else Ok (false, 0).

Definition update_validator_registry (state : BeaconState) : BeaconState :=
  state.

Definition process_validator_registry (state : BeaconState)
    (config : BeaconConfig) : result BeaconState :=
  let state :=
    set_previous_epoch_seed state.(current_epoch_seed)
      (set_previous_epoch_start_shard state.(current_epoch_start_shard)
         (set_previous_calculation_epoch state.(current_calculation_epoch)
            state)) in
  '(need_to_update, num_shards_in_committees) ←
    _check_if_update_validator_registry state config;
  if (need_to_update : bool) then
    let state := update_validator_registry state in
    next_epoch ← next_epoch env state config.(EPOCH_LENGTH);
    let state := set_current_calculation_epoch next_epoch state in
    start_shard ←
      Py.modulo (state.(current_epoch_start_shard) + num_shards_in_committees)
        config.(SHARD_COUNT);
    let state := set_current_epoch_start_shard start_shard state in
    current_epoch_seed ←
      generate_seed env state state.(current_calculation_epoch)
        config.(EPOCH_LENGTH) config.(MIN_SEED_LOOKAHEAD)
        config.(ACTIVATION_EXIT_DELAY)
        config.(LATEST_ACTIVE_INDEX_ROOTS_LENGTH)
        config.(LATEST_RANDAO_MIXES_LENGTH);
    Ok (set_current_epoch_seed current_epoch_seed state)
  else
    current_epoch ← current_epoch env state config.(EPOCH_LENGTH);
    let epochs_since_last_registry_change :=
      current_epoch - state.(validator_registry_update_epoch) in
    power ← is_power_of_two env epochs_since_last_registry_change;
    if (power : bool) then
      next_epoch ← next_epoch env state config.(EPOCH_LENGTH);
      let state := set_current_calculation_epoch next_epoch state in
      current_epoch_seed ←
        generate_seed env state state.(current_calculation_epoch)
          config.(EPOCH_LENGTH) config.(MIN_SEED_LOOKAHEAD)
          config.(ACTIVATION_EXIT_DELAY)
          config.(LATEST_ACTIVE_INDEX_ROOTS_LENGTH)
          config.(LATEST_RANDAO_MIXES_LENGTH);
      Ok (set_current_epoch_seed current_epoch_seed state)
    else Ok state.

(** *** Final updates *)

(** [b''.join([index.to_bytes(32, 'big') for index in indices])] *)
Fixpoint join_index_bytes (indices : list Z) : result (list byte) :=
  match indices with
  | [] => Ok []
  | index :: rest =>
      b ← Py.to_bytes_big index 32;
      bs ← join_index_bytes rest;
      Ok (b ++ bs)
  end.

Definition _update_latest_active_index_roots (state : BeaconState)
    (committee_config : BeaconConfig) : result BeaconState :=
  next_epoch ← next_epoch env state committee_config.(EPOCH_LENGTH);
  let active_validator_indices :=
    get_active_validator_indices env state.(validator_registry)
      (next_epoch + committee_config.(ACTIVATION_EXIT_DELAY)) in
  joined ← join_index_bytes active_validator_indices;
  let index_root := hash_eth2 env joined in
  i ← Py.modulo (next_epoch + committee_config.(ACTIVATION_EXIT_DELAY))
        committee_config.(LATEST_ACTIVE_INDEX_ROOTS_LENGTH);
  latest_active_index_roots ←
    update_tuple_item state.(latest_active_index_roots) i index_root;
  Ok (set_latest_active_index_roots latest_active_index_roots state).

Definition process_final_updates (state : BeaconState) (config : BeaconConfig)
  : result BeaconState :=
  current_epoch ← current_epoch env state config.(EPOCH_LENGTH);
  next_epoch ← next_epoch env state config.(EPOCH_LENGTH);
  state ← _update_latest_active_index_roots state (CommitteeConfig config);
  next_index ← Py.modulo next_epoch config.(LATEST_SLASHED_EXIT_LENGTH);
  current_index ← Py.modulo current_epoch config.(LATEST_SLASHED_EXIT_LENGTH);
  slashed_balance ← Py.getitem state.(latest_slashed_balances) current_index;
  new_slashed_balances ←
    update_tuple_item state.(latest_slashed_balances) next_index slashed_balance;
  mix_index ← Py.modulo next_epoch config.(LATEST_SLASHED_EXIT_LENGTH);
  randao_mix ←
    get_randao_mix env state current_epoch config.(EPOCH_LENGTH)
      config.(LATEST_RANDAO_MIXES_LENGTH);
  new_randao_mixes ←
    update_tuple_item state.(latest_randao_mixes) mix_index randao_mix;
  let state :=
    set_latest_randao_mixes new_randao_mixes
      (set_latest_slashed_balances new_slashed_balances state) in
  latest_attestations ←
    foldM
      (λ kept attestation,
         target ← slot_to_epoch
                    attestation.(data).(AttestationData.slot)
                    config.(EPOCH_LENGTH);
         Ok (if target >=? current_epoch then kept ++ [attestation] else kept))
      [] state.(latest_attestations);
  Ok (set_latest_attestations latest_attestations state).

End EpochProcessing.

(** ** The rules of the spec, in the spec's words *)

(** The four finality rules as the spec lists them: masks on the low bits of
    the bitfield, checked in the order 4, 3, 2, 1, the first match winning.
    The second component is the number of the rule, 0 for none. *)
Definition finality_rules (bitfield previous_justified_epoch justified_epoch
    finalized_epoch previous_epoch : Z) : Z * Z :=
  if (Z.land bitfield 3 =? 3) && (justified_epoch =? previous_epoch)
  then (justified_epoch, 4)
  else if (Z.land bitfield 7 =? 7) && (justified_epoch =? previous_epoch - 1)
  then (justified_epoch, 3)
  else if (Z.land (Z.shiftr bitfield 1) 3 =? 3)
          && (previous_justified_epoch =? previous_epoch - 1)
  then (previous_justified_epoch, 2)
  else if (Z.land (Z.shiftr bitfield 1) 7 =? 7)
          && (previous_justified_epoch =? previous_epoch - 2)
  then (previous_justified_epoch, 1)
  else (finalized_epoch, 0).

(** The two-bit value of the spec's step 4 as the spec words it: bit 0 from
    the previous epoch, bit 1 from the current epoch. *)
Definition bitfield_as_worded (bitfield : Z)
    (current_epoch_justifiable previous_epoch_justifiable : bool) : Z :=
  Z.lor (Z.shiftl bitfield 1)
    (Z.lor (if previous_epoch_justifiable then 1 else 0)
           (if current_epoch_justifiable then 2 else 0)).

(** The two-bit value the code ORs in: bit 0 from the current epoch, bit 1
    from the previous epoch. *)
Definition bitfield_as_coded (bitfield : Z)
    (current_epoch_justifiable previous_epoch_justifiable : bool) : Z :=
  Z.lor (Z.shiftl bitfield 1)
    (Z.lor (if current_epoch_justifiable then 1 else 0)
           (if previous_epoch_justifiable then 2 else 0)).

(** The window of [get_block_root]: strictly in the past, and retained. *)
Definition in_block_root_window (state_slot slot latest_block_roots_length : Z)
  : Prop :=
  state_slot - latest_block_roots_length <= slot < state_slot.

(** The snapshot [process_validator_registry] starts with. *)
Definition registry_snapshot (state : BeaconState) : BeaconState :=
  set_previous_epoch_seed state.(current_epoch_seed)
    (set_previous_epoch_start_shard state.(current_epoch_start_shard)
       (set_previous_calculation_epoch state.(current_calculation_epoch)
          state)).

(** ** A concrete chain to run the functions on

    Collaborators that derive the epochs from the slot, with the boundary
    attesting balances, the committees of a slot and the winning root given
    as tables. *)

Definition slot_epochs_env
    (boundary_balances : Z * Z)
    (committees : Z → list (list Z * Z))
    (winning : Z → result (Hash32 * Z))
    (committee_count : Z) : Env := {|
  current_epoch := λ state epoch_length, slot_to_epoch state.(slot) epoch_length;
  previous_epoch := λ state epoch_length genesis_epoch,
    current ← slot_to_epoch state.(slot) epoch_length;
    Ok (if current >? genesis_epoch then current - 1 else current);
  next_epoch := λ state epoch_length,
    current ← slot_to_epoch state.(slot) epoch_length;
    Ok (current + 1);
  is_active := λ validator epoch,
    (validator.(activation_epoch) <=? epoch) && (epoch <? validator.(exit_epoch));
  hash_eth2 := λ bytes, take 32 (bytes ++ replicate 32 x00);
  is_power_of_two := λ value, Ok ((0 <? value) && (2 ^ Z.log2 value =? value));
  get_epoch_boundary_attesting_balances := λ _ _ _ _, Ok boundary_balances;
  get_previous_epoch_attestations := λ _ _ _, Ok [];
  get_current_epoch_attestations := λ state _, Ok state.(latest_attestations);
  get_crosslink_committees_at_slot := λ _ slot _, Ok (committees slot);
  get_winning_root := λ _ shard _ _ _, winning shard;
  get_current_epoch_committee_count := λ _ _ _ _, Ok committee_count;
  set_iteration := λ l, l
|}.

Definition small_config : BeaconConfig := {|
  EPOCH_LENGTH := 4;
  SHARD_COUNT := 2;
  TARGET_COMMITTEE_SIZE := 3;
  MAX_DEPOSIT_AMOUNT := 100;
  MIN_SEED_LOOKAHEAD := 1;
  ACTIVATION_EXIT_DELAY := 1;
  LATEST_ACTIVE_INDEX_ROOTS_LENGTH := 8;
  LATEST_RANDAO_MIXES_LENGTH := 8;
  LATEST_SLASHED_EXIT_LENGTH := 4;
  GENESIS_EPOCH := 0
|}.

Definition a_root (b : byte) : Hash32 := replicate 32 b.

Definition small_fork : Fork.t :=
  {| Fork.previous_version := 0; Fork.current_version := 1; Fork.epoch := 0 |}.

(** Three validators active from epoch 0, 100 each; slot 24 is the start of
    epoch 6, so the previous epoch is 5 and the next is 7. *)
Definition small_state : BeaconState := {|
  slot := 24;
  validator_registry :=
    replicate 3 {| activation_epoch := 0; exit_epoch := 1000 |};
  validator_balances := [100; 100; 100];
  latest_block_roots := map a_root [x10; x11; x12; x13];
  latest_randao_mixes := map a_root [x20; x21; x22; x23; x24; x25; x26; x27];
  latest_active_index_roots :=
    map a_root [x30; x31; x32; x33; x34; x35; x36; x37];
  latest_crosslinks :=
    [ {| epoch := 3; shard_block_root := a_root x40 |};
      {| epoch := 4; shard_block_root := a_root x41 |} ];
  latest_slashed_balances := [10; 11; 12; 13];
  latest_attestations := [];
  justification_bitfield := 0;
  justified_epoch := 4;
  previous_justified_epoch := 3;
  finalized_epoch := 2;
  current_calculation_epoch := 5;
  previous_calculation_epoch := 4;
  current_epoch_seed := a_root x50;
  previous_epoch_seed := a_root x51;
  current_epoch_start_shard := 1;
  previous_epoch_start_shard := 0;
  validator_registry_update_epoch := 2;
  fork := small_fork
|}.

Definition no_committees : Z → list (list Z * Z) := λ _, [].

Definition no_winning_root : Z → result (Hash32 * Z) :=
  λ _, Raise NoWinningRootError.

(** Of a total balance of 300 in both epochs, 200 attested to the boundary
    of the previous epoch and nothing to that of the current epoch. *)
Definition previous_only_env : Env :=
  slot_epochs_env (200, 0) no_committees no_winning_root 0.

(** Both boundaries attested by the whole balance. *)
Definition both_epochs_env : Env :=
  slot_epochs_env (300, 300) no_committees no_winning_root 0.

Definition small_state_after_previous_only : BeaconState :=
  set_justification_bitfield 2
    (set_justified_epoch 5 (set_previous_justified_epoch 4 small_state)).

(** The previous epoch, 5, is justified and was justifiable one epoch ago. *)
Definition advancing_state : BeaconState :=
  set_justification_bitfield 1
    (set_justified_epoch 5 (set_previous_justified_epoch 4 small_state)).

Definition advancing_state_after : BeaconState :=
  set_finalized_epoch 5
    (set_justification_bitfield 3
       (set_justified_epoch 6 (set_previous_justified_epoch 5 advancing_state))).

(** A state whose finalized epoch, 10, is ahead of its justified epoch, 5. *)
Definition regressing_state : BeaconState :=
  set_finalized_epoch 10 (set_justified_epoch 5 small_state).

Definition regressing_state_after : BeaconState :=
  set_finalized_epoch 5
    (set_justification_bitfield 3
       (set_justified_epoch 6 (set_previous_justified_epoch 5 regressing_state))).

(** Every field but latest_crosslinks is the same in the two states. *)
Definition same_but_latest_crosslinks (s s' : BeaconState) : Prop :=
  s'.(slot) = s.(slot) ∧
  s'.(validator_registry) = s.(validator_registry) ∧
  s'.(validator_balances) = s.(validator_balances) ∧
  s'.(latest_block_roots) = s.(latest_block_roots) ∧
  s'.(latest_randao_mixes) = s.(latest_randao_mixes) ∧
  s'.(latest_active_index_roots) = s.(latest_active_index_roots) ∧
  s'.(latest_slashed_balances) = s.(latest_slashed_balances) ∧
  s'.(latest_attestations) = s.(latest_attestations) ∧
  s'.(justification_bitfield) = s.(justification_bitfield) ∧
  s'.(justified_epoch) = s.(justified_epoch) ∧
  s'.(previous_justified_epoch) = s.(previous_justified_epoch) ∧
  s'.(finalized_epoch) = s.(finalized_epoch) ∧
  s'.(current_calculation_epoch) = s.(current_calculation_epoch) ∧
  s'.(previous_calculation_epoch) = s.(previous_calculation_epoch) ∧
  s'.(current_epoch_seed) = s.(current_epoch_seed) ∧
  s'.(previous_epoch_seed) = s.(previous_epoch_seed) ∧
  s'.(current_epoch_start_shard) = s.(current_epoch_start_shard) ∧
  s'.(previous_epoch_start_shard) = s.(previous_epoch_start_shard) ∧
  s'.(validator_registry_update_epoch) = s.(validator_registry_update_epoch) ∧
  s'.(fork) = s.(fork).

(** One committee, the validators 0, 1 and 2, for shard 1 at slot 24. *)
Definition one_committee : Z → list (list Z * Z) :=
  λ slot, if slot =? 24 then [([0; 1; 2], 1)] else [].

(** The winning root of shard 1 is attested by a balance of 150, and by 200. *)
Definition below_threshold_env : Env :=
  slot_epochs_env (0, 0) one_committee (λ _, Ok (a_root x77, 150)) 1.

Definition at_threshold_env : Env :=
  slot_epochs_env (0, 0) one_committee (λ _, Ok (a_root x77, 200)) 1.

Definition small_state_crosslinked : BeaconState :=
  set_latest_crosslinks
    [ {| epoch := 3; shard_block_root := a_root x40 |};
      {| epoch := 6; shard_block_root := a_root x77 |} ]
    small_state.

(** The three ways through [process_validator_registry], each from the
    snapshot: the registry update, the seed refresh, and no change. *)
Definition registry_updated (state : BeaconState)
    (next start_shard : Z) (seed : Hash32) : BeaconState :=
  set_current_epoch_seed seed
    (set_current_epoch_start_shard start_shard
       (set_current_calculation_epoch next
          (update_validator_registry (registry_snapshot state)))).

Definition seed_refreshed (state : BeaconState)
    (next : Z) (seed : Hash32) : BeaconState :=
  set_current_epoch_seed seed
    (set_current_calculation_epoch next (registry_snapshot state)).

(** No committee, no winning root, one shard in the current committees. *)
Definition registry_env : Env :=
  slot_epochs_env (0, 0) no_committees no_winning_root 1.

(** Finalized after the last registry update, at epoch 1. *)
Definition due_state : BeaconState :=
  MkBeaconState 24 small_state.(validator_registry)
    small_state.(validator_balances) small_state.(latest_block_roots)
    small_state.(latest_randao_mixes) small_state.(latest_active_index_roots)
    small_state.(latest_crosslinks) small_state.(latest_slashed_balances)
    [] 0 4 3 2 5 4 (a_root x50) (a_root x51) 1 0 1 small_fork.

(** Three epochs after the last registry update, at epoch 3. *)
Definition idle_state : BeaconState :=
  MkBeaconState 24 small_state.(validator_registry)
    small_state.(validator_balances) small_state.(latest_block_roots)
    small_state.(latest_randao_mixes) small_state.(latest_active_index_roots)
    small_state.(latest_crosslinks) small_state.(latest_slashed_balances)
    [] 0 4 3 2 5 4 (a_root x50) (a_root x51) 1 0 3 small_fork.

(** [small_state] after the final updates of epoch 6: the active index
    root of epoch 8 in slot 0, the slashed balance of slot 6 mod 4 = 2 copied
    to slot 7 mod 4 = 3, and the RANDAO mix of slot 6 mod 8 = 6 written to
    slot 7 mod 4 = 3. *)
Definition small_state_final : BeaconState :=
  set_latest_attestations []
    (set_latest_randao_mixes
       (map a_root [x20; x21; x22; x26; x24; x25; x26; x27])
       (set_latest_slashed_balances [10; 11; 12; 12]
          (set_latest_active_index_roots
             (map a_root [x00; x31; x32; x33; x34; x35; x36; x37])
             small_state))).

(** [int.from_bytes(b, 'little')], the inverse of [to_bytes]. *)
Fixpoint from_bytes_little (b : list byte) : Z :=
  match b with
  | [] => 0
  | x :: rest => Z.of_N (Byte.to_N x) + 256 * from_bytes_little rest
  end.

(** A Python index that a tuple of length [n] accepts. *)
Definition valid_index (n : nat) (i : Z) : Prop :=
  - Z.of_nat n <= i < Z.of_nat n.

(** The fields [process_justification] does not replace. *)
Definition justification_frame (s : BeaconState) :=
  (s.(slot), s.(validator_registry), s.(validator_balances),
   s.(latest_block_roots), s.(latest_randao_mixes),
   s.(latest_active_index_roots), s.(latest_crosslinks),
   s.(latest_slashed_balances), s.(latest_attestations),
   s.(current_calculation_epoch), s.(previous_calculation_epoch),
   s.(current_epoch_seed), s.(previous_epoch_seed),
   s.(current_epoch_start_shard), s.(previous_epoch_start_shard),
   s.(validator_registry_update_epoch), s.(fork)).

(** The fields [process_validator_registry] does not replace. *)
Definition registry_frame (s : BeaconState) :=
  (s.(slot), s.(validator_registry), s.(validator_balances),
   s.(latest_block_roots), s.(latest_randao_mixes),
   s.(latest_active_index_roots), s.(latest_crosslinks),
   s.(latest_slashed_balances), s.(latest_attestations),
   s.(justification_bitfield), s.(justified_epoch),
   s.(previous_justified_epoch), s.(finalized_epoch),
   s.(validator_registry_update_epoch), s.(fork)).

(** The fields [process_final_updates] does not replace. *)
Definition final_updates_frame (s : BeaconState) :=
  (s.(slot), s.(validator_registry), s.(validator_balances),
   s.(latest_block_roots), s.(latest_crosslinks),
   s.(justification_bitfield), s.(justified_epoch),
   s.(previous_justified_epoch), s.(finalized_epoch),
   s.(current_calculation_epoch), s.(previous_calculation_epoch),
   s.(current_epoch_seed), s.(previous_epoch_seed),
   s.(current_epoch_start_shard), s.(previous_epoch_start_shard),
   s.(validator_registry_update_epoch), s.(fork)).

(** Two tuples of the same length that differ in at most one slot. *)
Definition one_slot_apart {A} (before after : list A) : Prop :=
  length after = length before ∧
  ∃ k : nat, ∀ j : nat, j ≠ k → after !! j = before !! j.

(** What [process_crosslinks] may do to latest_crosslinks: the same number
    of records, each the old one or one of the epoch [current_epoch] returns. *)
Definition crosslinks_advanced (current : result Z)
    (before after : list CrosslinkRecord) : Prop :=
  length after = length before ∧
  ∀ (i : nat) (record : CrosslinkRecord),
    after !! i = Some record →
    before !! i = Some record ∨ current = Ok record.(epoch).

(** A registry with no validator. *)
Definition empty_state : BeaconState :=
  MkBeaconState 24 [] [] small_state.(latest_block_roots)
    small_state.(latest_randao_mixes) small_state.(latest_active_index_roots)
    small_state.(latest_crosslinks) small_state.(latest_slashed_balances)
    [] 0 4 3 2 5 4 (a_root x50) (a_root x51) 1 0 2 small_fork.

Definition attestation_at (slot : Z) : Attestation :=
  {| data := {| AttestationData.slot := slot; AttestationData.shard := 0;
                AttestationData.justified_epoch := 4 |} |}.

(** [small_state] with attestations of the epochs 4, 6, 5 and 6. *)
Definition attested_state : BeaconState :=
  set_latest_attestations (map attestation_at [19; 24; 23; 27]) small_state.

Definition attested_state_final : BeaconState :=
  set_latest_attestations (map attestation_at [24; 27]) small_state_final.

(** [small_state] with two block roots only. *)
Definition short_roots_state : BeaconState :=
  MkBeaconState 24 small_state.(validator_registry)
    small_state.(validator_balances) (map a_root [x10; x11])
    small_state.(latest_randao_mixes) small_state.(latest_active_index_roots)
    small_state.(latest_crosslinks) small_state.(latest_slashed_balances)
    [] 0 4 3 2 5 4 (a_root x50) (a_root x51) 1 0 2 small_fork.

(** Iterating over [set(l)] visits the elements of [l] and nothing else. *)
Definition set_visits_elements (env : Env) : Prop :=
  ∀ (l : list Z) (x : Z), x ∈ set_iteration env l ↔ x ∈ l.

(** The committees [process_crosslinks] gets for its slots, slot by slot. *)
Definition committees_of_slots (env : Env) (state : BeaconState)
    (config : BeaconConfig) (slots : list Z)
    (per_slot : list (list (list Z * Z))) : Prop :=
  Forall2
    (λ slot committees,
       get_crosslink_committees_at_slot env state slot (CommitteeConfig config)
       = Ok committees)
    slots per_slot.

(** The committees of the slots 20 to 27 of [small_state]: none but the one
    of slot 24. *)
Definition small_run_committees : list (list (list Z * Z)) :=
  [[]; []; []; []; [([0; 1; 2], 1)]; []; []; []].

(** ** Properties of the helpers *)

Lemma floordiv_ok a b : b ≠ 0 → Py.floordiv a b = Ok (a / b).
Proof.
  intros Hb. unfold Py.floordiv.
  destruct (Z.eqb_spec b 0); [contradiction | reflexivity].
Qed.

Lemma modulo_ok a b : b ≠ 0 → Py.modulo a b = Ok (a mod b).
Proof.
  intros Hb. unfold Py.modulo.
  destruct (Z.eqb_spec b 0); [contradiction | reflexivity].
Qed.

Lemma getitem_nonneg {A} (l : list A) (i : Z) (x : A) :
  0 <= i → Py.getitem l i = Ok x ↔ l !! Z.to_nat i = Some x.
Proof.
  intros Hi. unfold Py.getitem.
  destruct (Z.ltb_spec i 0); [lia |].
  destruct (Z.leb_spec 0 i); [| lia]. cbn [andb].
  destruct (Z.ltb_spec i (Z.of_nat (length l))) as [Hlt | Hge].
  - destruct (l !! Z.to_nat i) eqn:E; split; congruence.
  - split; [discriminate |].
    intros E. apply lookup_lt_Some in E. lia.
Qed.

Lemma land_3 a : Z.land a 3 = a mod 4.
Proof. change 3 with (Z.ones 2). now rewrite Z.land_ones by lia. Qed.

Lemma land_7 a : Z.land a 7 = a mod 8.
Proof. change 7 with (Z.ones 3). now rewrite Z.land_ones by lia. Qed.

(** C2: [_get_finalized_epoch] is the four finality rules of the spec,
    checked in the order 4, 3, 2, 1 with the first match winning: rule 4 on
    the bottom two bits and [justified_epoch = previous_epoch], rule 3 on the
    bottom three bits and [justified_epoch = previous_epoch - 1], rule 2 on
    two bits after a shift right by one and [previous_justified_epoch =
    previous_epoch - 1], rule 1 on three bits after that shift and
    [previous_justified_epoch = previous_epoch - 2]; with no match the
    finalized epoch comes back unchanged. *)
Theorem get_finalized_epoch_rules
    (bitfield previous_justified_epoch justified_epoch finalized_epoch
     previous_epoch : Z) :
  _get_finalized_epoch bitfield previous_justified_epoch justified_epoch
    finalized_epoch previous_epoch
  = finality_rules bitfield previous_justified_epoch justified_epoch
      finalized_epoch previous_epoch.
Proof.
  unfold _get_finalized_epoch, finality_rules.
  now rewrite !land_3, !land_7.
Qed.

(** Each rule firing, with previous epoch 9; in the first line rule 2 holds
    as well and rule 4 wins. *)
Example finality_rule_4 : _get_finalized_epoch 7 8 9 1 9 = (9, 4).
Proof. reflexivity. Qed.

Example finality_rule_3 : _get_finalized_epoch 7 7 8 1 9 = (8, 3).
Proof. reflexivity. Qed.

Example finality_rule_2 : _get_finalized_epoch 6 8 8 1 9 = (8, 2).
Proof. reflexivity. Qed.

Example finality_rule_1 : _get_finalized_epoch 14 7 7 1 9 = (7, 1).
Proof. reflexivity. Qed.

Example finality_no_rule : _get_finalized_epoch 5 8 9 1 9 = (1, 0).
Proof. reflexivity. Qed.

Lemma slot_to_epoch_ok slot epoch_length :
  epoch_length ≠ 0 → slot_to_epoch slot epoch_length = Ok (slot / epoch_length).
Proof. apply floordiv_ok. Qed.

Lemma is_surround_vote_ok a1 a2 epoch_length :
  epoch_length ≠ 0 →
  is_surround_vote a1 a2 epoch_length
  = Ok ((a1.(AttestationData.justified_epoch) <? a2.(AttestationData.justified_epoch))
        && (a2.(AttestationData.slot) / epoch_length
              <? a1.(AttestationData.slot) / epoch_length)).
Proof.
  intros Hl. unfold is_surround_vote.
  now rewrite !slot_to_epoch_ok by assumption.
Qed.

(** C10: for a positive epoch_length, [is_surround_vote] returns a boolean in
    both orders and the two are never both true; on one and the same
    attestation data it returns false. *)
Theorem is_surround_vote_asymmetric (a b : AttestationData.t) (epoch_length : Z) :
  0 < epoch_length →
  (∃ ab ba : bool,
     is_surround_vote a b epoch_length = Ok ab ∧
     is_surround_vote b a epoch_length = Ok ba ∧
     ab && ba = false) ∧
  is_surround_vote a a epoch_length = Ok false.
Proof.
  intros Hpos.
  rewrite !is_surround_vote_ok by lia. split.
  - eexists _, _. split; [reflexivity |]. split; [reflexivity |].
    destruct (Z.ltb_spec (AttestationData.justified_epoch a)
                (AttestationData.justified_epoch b));
      destruct (Z.ltb_spec (AttestationData.justified_epoch b)
                  (AttestationData.justified_epoch a));
      cbn [andb]; try reflexivity; try lia.
    all: repeat match goal with
           | |- context [?x <? ?y] => destruct (Z.ltb_spec x y)
           end; cbn [andb]; try reflexivity; lia.
  - f_equal. rewrite Z.ltb_irrefl. reflexivity.
Qed.

Lemma is_surround_vote_asymmetric_witness :
  0 < 4 ∧
  ((∃ ab ba : bool,
      is_surround_vote
        {| AttestationData.slot := 40; AttestationData.shard := 0;
           AttestationData.justified_epoch := 2 |}
        {| AttestationData.slot := 20; AttestationData.shard := 0;
           AttestationData.justified_epoch := 3 |} 4 = Ok ab ∧
      is_surround_vote
        {| AttestationData.slot := 20; AttestationData.shard := 0;
           AttestationData.justified_epoch := 3 |}
        {| AttestationData.slot := 40; AttestationData.shard := 0;
           AttestationData.justified_epoch := 2 |} 4 = Ok ba ∧
      ab && ba = false) ∧
   is_surround_vote
     {| AttestationData.slot := 40; AttestationData.shard := 0;
        AttestationData.justified_epoch := 2 |}
     {| AttestationData.slot := 40; AttestationData.shard := 0;
        AttestationData.justified_epoch := 2 |} 4 = Ok false).
Proof.
  split; [lia |].
  apply (is_surround_vote_asymmetric
           {| AttestationData.slot := 40; AttestationData.shard := 0;
              AttestationData.justified_epoch := 2 |}
           {| AttestationData.slot := 20; AttestationData.shard := 0;
              AttestationData.justified_epoch := 3 |} 4).
  lia.
Defined.

(** The first of the two orders above is a surround vote, the second is
    not: the relation is not symmetric. *)
Example is_surround_vote_one_way :
  is_surround_vote
    {| AttestationData.slot := 40; AttestationData.shard := 0;
       AttestationData.justified_epoch := 2 |}
    {| AttestationData.slot := 20; AttestationData.shard := 0;
       AttestationData.justified_epoch := 3 |} 4 = Ok true ∧
  is_surround_vote
    {| AttestationData.slot := 20; AttestationData.shard := 0;
       AttestationData.justified_epoch := 3 |}
    {| AttestationData.slot := 40; AttestationData.shard := 0;
       AttestationData.justified_epoch := 2 |} 4 = Ok false.
Proof. split; reflexivity. Qed.

(** With a zero epoch_length the division raises. *)
Example is_surround_vote_zero_length a b :
  is_surround_vote a b 0 = Raise ZeroDivisionError.
Proof. reflexivity. Qed.

Lemma _get_block_root_validation roots state_slot slot len :
  _get_block_root roots state_slot slot len = Raise ValidationError
  ↔ (slot >= state_slot ∨ state_slot > slot + len).
Proof.
  unfold _get_block_root.
  destruct (Z.gtb_spec state_slot (slot + len)) as [Hold | Hrecent].
  { split; [right; lia | reflexivity]. }
  destruct (Z.geb_spec slot state_slot) as [Hfuture | Hpast].
  { split; [left; lia | reflexivity]. }
  rewrite modulo_ok by lia. cbn.
  split; [| lia].
  unfold Py.getitem.
  repeat match goal with
         | |- context [if ?b then _ else _] => destruct b
         | |- context [match ?o with Some _ => _ | None => _ end] => destruct o
         end; discriminate.
Qed.

Lemma _get_block_root_in_window roots state_slot slot len root :
  _get_block_root roots state_slot slot len = Ok root
  ↔ (in_block_root_window state_slot slot len
     ∧ roots !! Z.to_nat (slot mod len) = Some root).
Proof.
  unfold _get_block_root, in_block_root_window.
  destruct (Z.gtb_spec state_slot (slot + len)) as [Hold | Hrecent].
  { split; [discriminate | lia]. }
  destruct (Z.geb_spec slot state_slot) as [Hfuture | Hpast].
  { split; [discriminate | lia]. }
  rewrite modulo_ok by lia. cbn.
  rewrite getitem_nonneg by (apply Z.mod_pos_bound; lia).
  split; [intros E; split; [lia | exact E] | intros [_ E]; exact E].
Qed.

Lemma _get_block_root_index_error roots state_slot slot len :
  _get_block_root roots state_slot slot len = Raise IndexError
  ↔ (in_block_root_window state_slot slot len
     ∧ Z.of_nat (length roots) <= slot mod len).
Proof.
  unfold _get_block_root, in_block_root_window.
  destruct (Z.gtb_spec state_slot (slot + len)) as [Hold | Hrecent].
  { split; [discriminate | lia]. }
  destruct (Z.geb_spec slot state_slot) as [Hfuture | Hpast].
  { split; [discriminate | lia]. }
  rewrite modulo_ok by lia. cbn.
  pose proof (Z.mod_pos_bound slot len ltac:(lia)) as Hmod.
  unfold Py.getitem.
  destruct (Z.ltb_spec (slot mod len) 0); [lia |].
  destruct (Z.leb_spec 0 (slot mod len)); [| lia]. cbn [andb].
  destruct (Z.ltb_spec (slot mod len) (Z.of_nat (length roots))) as [Hin | Hout].
  - destruct (lookup_lt_is_Some_2 roots (Z.to_nat (slot mod len))) as [r Hr];
      [lia |].
    rewrite Hr. split; [discriminate | lia].
  - split; [intros _; lia | reflexivity].
Qed.

(** C8, as the code has it: [get_block_root] raises ValidationError exactly
    when [slot >= state.slot] or [state.slot > slot +
    latest_block_roots_length], the complement of the window [state.slot -
    latest_block_roots_length <= slot < state.slot].  It returns a root
    exactly when the slot is in the window and latest_block_roots has an
    entry at [slot % latest_block_roots_length], and the root is that entry;
    for a slot of the window without such an entry it raises IndexError.
    With at least latest_block_roots_length roots in the buffer it returns
    exactly for the slots of the window. *)
Theorem get_block_root_window (state : BeaconState)
    (slot latest_block_roots_length : Z) :
  (get_block_root state slot latest_block_roots_length = Raise ValidationError
   ↔ (slot >= state.(State.slot) ∨ state.(State.slot) > slot + latest_block_roots_length))
  ∧ (¬ (slot >= state.(State.slot) ∨ state.(State.slot) > slot + latest_block_roots_length)
     ↔ in_block_root_window state.(State.slot) slot latest_block_roots_length)
  ∧ (∀ root,
       get_block_root state slot latest_block_roots_length = Ok root
       ↔ (in_block_root_window state.(State.slot) slot latest_block_roots_length
          ∧ state.(latest_block_roots)
              !! Z.to_nat (slot mod latest_block_roots_length) = Some root))
  ∧ (get_block_root state slot latest_block_roots_length = Raise IndexError
     ↔ (in_block_root_window state.(State.slot) slot latest_block_roots_length
        ∧ Z.of_nat (length state.(latest_block_roots))
          <= slot mod latest_block_roots_length))
  ∧ (latest_block_roots_length <= Z.of_nat (length state.(latest_block_roots)) →
     ((∃ root, get_block_root state slot latest_block_roots_length = Ok root)
      ↔ in_block_root_window state.(State.slot) slot latest_block_roots_length)).
Proof.
  unfold get_block_root. split; [| split; [| split; [| split]]].
  - apply _get_block_root_validation.
  - unfold in_block_root_window. lia.
  - intros root. apply _get_block_root_in_window.
  - apply _get_block_root_index_error.
  - intros Hlen. split.
    + intros [root Hroot]. now apply _get_block_root_in_window in Hroot.
    + intros Hwin.
      assert (Hpos : 0 < latest_block_roots_length)
        by (unfold in_block_root_window in Hwin; lia).
      pose proof (Z.mod_pos_bound slot latest_block_roots_length Hpos) as Hmod.
      destruct (lookup_lt_is_Some_2 state.(latest_block_roots)
                  (Z.to_nat (slot mod latest_block_roots_length)))
        as [root Hroot]; [lia |].
      exists root. apply _get_block_root_in_window. auto.
Qed.

(** C8 as worded fails: [short_roots_state] is at slot 24 and holds two
    roots; slot 23 is in the window of length 4, 23 % 4 is 3, and the lookup
    raises IndexError. *)
Lemma get_block_root_in_window_can_raise :
  in_block_root_window short_roots_state.(slot) 23 4 ∧
  get_block_root short_roots_state 23 4 = Raise IndexError ∧
  ¬ (∃ root, get_block_root short_roots_state 23 4 = Ok root).
Proof.
  split; [unfold in_block_root_window; cbn; lia |].
  split; [reflexivity |].
  intros [root Hroot]. discriminate.
Qed.

(** With at least latest_block_roots_length roots in the buffer every slot
    of the window has its root. *)
Lemma get_block_root_returns (state : BeaconState)
    (slot latest_block_roots_length : Z) :
  latest_block_roots_length <= Z.of_nat (length state.(latest_block_roots)) →
  in_block_root_window state.(State.slot) slot latest_block_roots_length →
  ∃ root, get_block_root state slot latest_block_roots_length = Ok root.
Proof.
  intros Hlen Hwin.
  assert (Hpos : 0 < latest_block_roots_length)
    by (unfold in_block_root_window in Hwin; lia).
  pose proof (Z.mod_pos_bound slot latest_block_roots_length Hpos) as Hmod.
  destruct (lookup_lt_is_Some_2 state.(latest_block_roots)
              (Z.to_nat (slot mod latest_block_roots_length))) as [root Hroot];
    [lia |].
  exists root. unfold get_block_root.
  apply _get_block_root_in_window. auto.
Qed.

(** The two ends of the window of [small_state], at slot 24 with 4 roots:
    slot 20 is the oldest retained, slot 23 the newest; 19 and 24 raise. *)
Example get_block_root_edges :
  get_block_root small_state 19 4 = Raise ValidationError ∧
  get_block_root small_state 20 4 = Ok (a_root x10) ∧
  get_block_root small_state 23 4 = Ok (a_root x13) ∧
  get_block_root small_state 24 4 = Raise ValidationError.
Proof. repeat split. Qed.

(** ** Reading a result back *)

Lemma bind_ok {A B} (m : result A) (f : A → result B) (b : B) :
  m ≫= f = Ok b → ∃ a, m = Ok a ∧ f a = Ok b.
Proof. destruct m as [a | e]; [eauto | discriminate]. Qed.

(** Split [H : m ≫= f = Ok b] into the value of [m] and the rest. *)
Ltac bind_inv H x Hx :=
  apply bind_ok in H; destruct H as (x & Hx & H); cbn beta in H.

(** ** Justification *)

Lemma shifted_bitfield_coded bitfield cj pj :
  shifted_bitfield bitfield cj pj = bitfield_as_coded bitfield cj pj.
Proof.
  unfold shifted_bitfield, bitfield_as_coded.
  destruct cj, pj; cbn; try reflexivity.
  now rewrite Z.lor_0_r.
Qed.

Lemma testbit_flag (b : bool) (k n : Z) :
  0 <= k →
  Z.testbit (if b then 2 ^ k else 0) n = b && (k =? n).
Proof.
  intros Hk. destruct b; cbn [andb].
  - destruct (Z.ltb_spec n 0).
    + rewrite Z.testbit_neg_r by lia. symmetry. apply Z.eqb_neq. lia.
    + apply Z.pow2_bits_eqb. lia.
  - apply Z.bits_0.
Qed.

Lemma bitfield_as_coded_bits bitfield cj pj n :
  Z.testbit (bitfield_as_coded bitfield cj pj) n
  = if n =? 0 then cj
    else if n =? 1 then pj || Z.testbit bitfield 0
    else Z.testbit bitfield (n - 1).
Proof.
  unfold bitfield_as_coded.
  change (if cj then 1 else 0) with (if cj then 2 ^ 0 else 0).
  change (if pj then 2 else 0) with (if pj then 2 ^ 1 else 0).
  destruct (Z.ltb_spec n 0) as [Hneg | Hpos].
  - rewrite !Z.testbit_neg_r by lia.
    destruct (Z.eqb_spec n 0); [lia |]. destruct (Z.eqb_spec n 1); [lia |].
    now rewrite Z.testbit_neg_r by lia.
  - rewrite !Z.lor_spec, Z.shiftl_spec, !testbit_flag by lia.
    destruct (Z.eqb_spec n 0) as [-> | H0].
    + cbn. rewrite andb_false_r, orb_false_r. destruct cj; reflexivity.
    + destruct (Z.eqb_spec n 1) as [-> | H1].
      * cbn. rewrite andb_false_r, andb_true_r. cbn.
        apply orb_comm.
      * destruct (Z.eqb_spec 0 n); [lia |]. destruct (Z.eqb_spec 1 n); [lia |].
        now rewrite !andb_false_r, !orb_false_r.
Qed.

Lemma get_finalized_epoch_choice bitfield pje je fe prev :
  let r := fst (_get_finalized_epoch bitfield pje je fe prev) in
  r = je ∨ r = pje ∨ r = fe.
Proof.
  unfold _get_finalized_epoch.
  repeat match goal with
         | |- context [if ?b then _ else _] => destruct b
         end; cbn; auto.
Qed.

Section Justification.

Variable env : Env.

Lemma process_justification_inv state config state' :
  process_justification env state config = Ok state' →
  ∃ current previous cj pj,
    current_epoch env state config.(EPOCH_LENGTH) = Ok current ∧
    previous_epoch env state config.(EPOCH_LENGTH) config.(GENESIS_EPOCH)
    = Ok previous ∧
    _current_previous_epochs_justifiable env state current previous config
    = Ok (cj, pj) ∧
    state'
    = set_finalized_epoch
        (fst (_get_finalized_epoch
                (shifted_bitfield state.(justification_bitfield) cj pj)
                state.(previous_justified_epoch) state.(justified_epoch)
                state.(finalized_epoch) previous))
        (set_justification_bitfield
           (shifted_bitfield state.(justification_bitfield) cj pj)
           (set_justified_epoch
              (if cj then current else if pj then previous
               else state.(justified_epoch))
              (set_previous_justified_epoch state.(justified_epoch) state))).
Proof.
  unfold process_justification. intros H.
  bind_inv H current Hcur. bind_inv H previous Hprev.
  bind_inv H flags Hflags. destruct flags as [cj pj].
  exists current, previous, cj, pj.
  destruct (_get_finalized_epoch _ _ _ _ _) as [fe rule].
  injection H as <-. auto.
Qed.

(** The transition raises only where a collaborator or a balance lookup
    does. *)
Lemma process_justification_returns state config current previous flags :
  current_epoch env state config.(EPOCH_LENGTH) = Ok current →
  previous_epoch env state config.(EPOCH_LENGTH) config.(GENESIS_EPOCH)
  = Ok previous →
  _current_previous_epochs_justifiable env state current previous config
  = Ok flags →
  ∃ state', process_justification env state config = Ok state'.
Proof.
  intros Hcur Hprev Hflags. unfold process_justification.
  rewrite Hcur. cbn. rewrite Hprev. cbn. rewrite Hflags. cbn.
  destruct flags as [cj pj].
  destruct (_get_finalized_epoch _ _ _ _ _). eauto.
Qed.

(** C1, as the code has it: the new bitfield is the old one shifted left by
    one bit, ORed with a two-bit value whose bit 0 (value 1) is set exactly
    when the current epoch is justifiable and whose bit 1 (value 2) is set
    exactly when the previous epoch is justifiable.  Bit by bit: bit 0 is
    the current-epoch flag, bit 1 is the previous-epoch flag or the old bit
    0, and every other bit [n] is the old bit [n - 1]. *)
Theorem process_justification_bitfield state config state' :
  process_justification env state config = Ok state' →
  ∃ current previous cj pj,
    current_epoch env state config.(EPOCH_LENGTH) = Ok current ∧
    previous_epoch env state config.(EPOCH_LENGTH) config.(GENESIS_EPOCH)
    = Ok previous ∧
    _current_previous_epochs_justifiable env state current previous config
    = Ok (cj, pj) ∧
    state'.(justification_bitfield)
    = bitfield_as_coded state.(justification_bitfield) cj pj ∧
    ∀ n, Z.testbit state'.(justification_bitfield) n
         = if n =? 0 then cj
           else if n =? 1 then pj || Z.testbit state.(justification_bitfield) 0
           else Z.testbit state.(justification_bitfield) (n - 1).
Proof.
  intros H. apply process_justification_inv in H.
  destruct H as (current & previous & cj & pj & Hcur & Hprev & Hflags & ->).
  exists current, previous, cj, pj. repeat (split; [assumption |]).
  assert (Hbits : justification_bitfield
            (set_finalized_epoch
               (fst (_get_finalized_epoch
                       (shifted_bitfield state.(justification_bitfield) cj pj)
                       state.(previous_justified_epoch) state.(justified_epoch)
                       state.(finalized_epoch) previous))
               (set_justification_bitfield
                  (shifted_bitfield state.(justification_bitfield) cj pj)
                  (set_justified_epoch
                     (if cj then current else if pj then previous
                      else state.(justified_epoch))
                     (set_previous_justified_epoch state.(justified_epoch) state))))
          = bitfield_as_coded state.(justification_bitfield) cj pj).
  { rewrite <- shifted_bitfield_coded. destruct state; reflexivity. }
  rewrite Hbits. split; [reflexivity |].
  intros n. apply bitfield_as_coded_bits.
Qed.

(** C5: the finalized epoch of the result is [_get_finalized_epoch] on the
    bitfield of the result (the shifted one) together with the
    previous_justified_epoch, the justified_epoch and the finalized_epoch of
    the input state; the justified epoch stored by the same transition is
    not among its arguments. *)
Theorem process_justification_finalizes_on_old_epochs state config state' :
  process_justification env state config = Ok state' →
  ∃ previous,
    previous_epoch env state config.(EPOCH_LENGTH) config.(GENESIS_EPOCH)
    = Ok previous ∧
    state'.(finalized_epoch)
    = fst (_get_finalized_epoch state'.(justification_bitfield)
             state.(previous_justified_epoch) state.(justified_epoch)
             state.(finalized_epoch) previous).
Proof.
  intros H. apply process_justification_inv in H.
  destruct H as (current & previous & cj & pj & Hcur & Hprev & Hflags & ->).
  exists previous. split; [assumption |].
  destruct state; reflexivity.
Qed.

(** X20: The order finalized <= previous justified <= justified <= previous
    epoch is kept by a transition, with the current epoch as the previous
    epoch of the next one. *)
Lemma process_justification_keeps_order state config state' current previous :
  current_epoch env state config.(EPOCH_LENGTH) = Ok current →
  previous_epoch env state config.(EPOCH_LENGTH) config.(GENESIS_EPOCH)
  = Ok previous →
  previous <= current →
  state.(finalized_epoch) <= state.(previous_justified_epoch) →
  state.(previous_justified_epoch) <= state.(justified_epoch) →
  state.(justified_epoch) <= previous →
  process_justification env state config = Ok state' →
  state'.(finalized_epoch) <= state'.(previous_justified_epoch)
  ∧ state'.(previous_justified_epoch) <= state'.(justified_epoch)
  ∧ state'.(justified_epoch) <= current.
Proof.
  intros Hc Hp Hpc Hfe Hpje Hje H. apply process_justification_inv in H.
  destruct H as (current' & previous' & cj & pj & Hcur & Hprev & Hflags & ->).
  rewrite Hc in Hcur. rewrite Hp in Hprev.
  injection Hcur as <-. injection Hprev as <-.
  pose proof (get_finalized_epoch_choice
                (shifted_bitfield state.(justification_bitfield) cj pj)
                state.(previous_justified_epoch) state.(justified_epoch)
                state.(finalized_epoch) previous) as Hchoice.
  cbv zeta in Hchoice.
  destruct state; cbn in *. destruct cj, pj; lia.
Qed.

(** C3, as the code has it: when the finalized epoch of the input state is
    at most both its previous_justified_epoch and its justified_epoch, the
    finalized epoch of the result is at least that of the input. *)
Theorem process_justification_finality_monotone state config state' :
  state.(finalized_epoch) <= state.(previous_justified_epoch) →
  state.(finalized_epoch) <= state.(justified_epoch) →
  process_justification env state config = Ok state' →
  state.(finalized_epoch) <= state'.(finalized_epoch).
Proof.
  intros Hpje Hje H. apply process_justification_inv in H.
  destruct H as (current & previous & cj & pj & Hcur & Hprev & Hflags & ->).
  pose proof (get_finalized_epoch_choice
                (shifted_bitfield state.(justification_bitfield) cj pj)
                state.(previous_justified_epoch) state.(justified_epoch)
                state.(finalized_epoch) previous) as Hchoice.
  cbv zeta in Hchoice.
  destruct state; cbn in *. lia.
Qed.

End Justification.

(** On [small_state] with only the previous epoch justifiable the bitfield
    0 becomes 2. *)
Example previous_only_run :
  process_justification previous_only_env small_state small_config
  = Ok small_state_after_previous_only.
Proof. reflexivity. Qed.

Lemma process_justification_bitfield_witness :
  process_justification previous_only_env small_state small_config
  = Ok small_state_after_previous_only ∧
  ∃ current previous cj pj,
    current_epoch previous_only_env small_state small_config.(EPOCH_LENGTH)
    = Ok current ∧
    previous_epoch previous_only_env small_state small_config.(EPOCH_LENGTH)
      small_config.(GENESIS_EPOCH) = Ok previous ∧
    _current_previous_epochs_justifiable previous_only_env small_state current
      previous small_config = Ok (cj, pj) ∧
    small_state_after_previous_only.(justification_bitfield)
    = bitfield_as_coded small_state.(justification_bitfield) cj pj ∧
    ∀ n, Z.testbit small_state_after_previous_only.(justification_bitfield) n
         = if n =? 0 then cj
           else if n =? 1
                then pj || Z.testbit small_state.(justification_bitfield) 0
           else Z.testbit small_state.(justification_bitfield) (n - 1).
Proof.
  split; [reflexivity |].
  apply (process_justification_bitfield previous_only_env small_state
           small_config small_state_after_previous_only).
  reflexivity.
Defined.

(** C1 as worded fails: on [small_state] the current epoch, 6, is not
    justifiable and the previous epoch, 5, is; the code stores the bitfield
    2, and the wording (bit 0 from the previous epoch) gives 1. *)
Lemma process_justification_bitfield_not_as_worded :
  current_epoch previous_only_env small_state small_config.(EPOCH_LENGTH) = Ok 6 ∧
  previous_epoch previous_only_env small_state small_config.(EPOCH_LENGTH)
    small_config.(GENESIS_EPOCH) = Ok 5 ∧
  _current_previous_epochs_justifiable previous_only_env small_state 6 5
    small_config = Ok (false, true) ∧
  process_justification previous_only_env small_state small_config
  = Ok small_state_after_previous_only ∧
  small_state_after_previous_only.(justification_bitfield) = 2 ∧
  bitfield_as_worded small_state.(justification_bitfield) false true = 1 ∧
  small_state_after_previous_only.(justification_bitfield)
  ≠ bitfield_as_worded small_state.(justification_bitfield) false true.
Proof. repeat split; try reflexivity. discriminate. Qed.

Lemma process_justification_finalizes_on_old_epochs_witness :
  process_justification both_epochs_env advancing_state small_config
  = Ok advancing_state_after ∧
  ∃ previous,
    previous_epoch both_epochs_env advancing_state small_config.(EPOCH_LENGTH)
      small_config.(GENESIS_EPOCH) = Ok previous ∧
    advancing_state_after.(finalized_epoch)
    = fst (_get_finalized_epoch advancing_state_after.(justification_bitfield)
             advancing_state.(previous_justified_epoch)
             advancing_state.(justified_epoch)
             advancing_state.(finalized_epoch) previous).
Proof.
  split; [reflexivity |].
  apply (process_justification_finalizes_on_old_epochs both_epochs_env
           advancing_state small_config advancing_state_after).
  reflexivity.
Defined.

(** On [advancing_state] rule 4 finalizes the old justified epoch, 5; the
    justified epoch stored by the same transition is 6. *)
Example advancing_state_finalizes_old :
  advancing_state_after.(finalized_epoch) = advancing_state.(justified_epoch) ∧
  advancing_state_after.(justified_epoch) = 6 ∧
  _get_finalized_epoch advancing_state_after.(justification_bitfield)
    advancing_state.(previous_justified_epoch)
    advancing_state_after.(justified_epoch)
    advancing_state.(finalized_epoch) 5 = (2, 0).
Proof. repeat split. Qed.

Lemma process_justification_finality_monotone_witness :
  advancing_state.(finalized_epoch) <= advancing_state.(previous_justified_epoch) ∧
  advancing_state.(finalized_epoch) <= advancing_state.(justified_epoch) ∧
  process_justification both_epochs_env advancing_state small_config
  = Ok advancing_state_after ∧
  advancing_state.(finalized_epoch) <= advancing_state_after.(finalized_epoch).
Proof.
  assert (H1 : advancing_state.(finalized_epoch)
               <= advancing_state.(previous_justified_epoch)) by (cbn; lia).
  assert (H2 : advancing_state.(finalized_epoch)
               <= advancing_state.(justified_epoch)) by (cbn; lia).
  repeat split; [exact H1 | exact H2 |].
  exact (process_justification_finality_monotone both_epochs_env advancing_state
           small_config advancing_state_after H1 H2 eq_refl).
Defined.

(** C3 as worded fails: [regressing_state] has finalized epoch 10 and
    justified epoch 5, the previous epoch; both epochs are justifiable, the
    bitfield becomes 3, rule 4 fires and the finalized epoch becomes 5. *)
Lemma process_justification_finality_can_decrease :
  process_justification both_epochs_env regressing_state small_config
  = Ok regressing_state_after ∧
  regressing_state.(finalized_epoch) = 10 ∧
  regressing_state_after.(finalized_epoch) = 5 ∧
  ¬ (regressing_state_after.(finalized_epoch)
     >= regressing_state.(finalized_epoch)).
Proof. repeat split; try reflexivity. cbn. lia. Qed.

(** ** Crosslinks *)

Lemma update_tuple_item_in_range {A} (l : list A) (i : Z) (v : A) :
  0 <= i < Z.of_nat (length l) →
  update_tuple_item l i v = Ok (<[Z.to_nat i := v]> l).
Proof.
  intros Hi. unfold update_tuple_item.
  destruct (Z.ltb_spec i 0); [lia |].
  destruct (Z.leb_spec 0 i); [| lia].
  destruct (Z.ltb_spec i (Z.of_nat (length l))); [reflexivity | lia].
Qed.

Section Crosslinks.

Variable env : Env.

(** When [get_winning_root] returns a root for the shard of a
    committee, the step of [process_crosslinks] for that committee replaces
    the shard's record with [{epoch: current_epoch, shard_block_root:
    winning_root}] when three times the attesting balance is at least twice
    the committee's total effective balance, and leaves latest_crosslinks
    as it is when it is less; with a total of 300 and an attesting balance
    of 150 it is left as it is. *)
Lemma crosslink_committee_step_two_thirds
    (state : BeaconState) (config : BeaconConfig)
    (attestations : list Attestation)
    (latest_crosslinks : list CrosslinkRecord)
    (crosslink_committee : list Z) (shard : Z)
    (winning_root : Hash32) (total_attesting_balance total_balance : Z) :
  get_winning_root env state shard
    (_filter_attestations_by_shard attestations shard)
    config.(MAX_DEPOSIT_AMOUNT) (CommitteeConfig config)
  = Ok (winning_root, total_attesting_balance) →
  sum_effective_balances state.(validator_balances) crosslink_committee
    config.(MAX_DEPOSIT_AMOUNT) = Ok total_balance →
  let step :=
    crosslink_committee_step env state config attestations latest_crosslinks
      (crosslink_committee, shard) in
  (3 * total_attesting_balance >= 2 * total_balance →
   step
   = (current ← current_epoch env state config.(EPOCH_LENGTH);
      update_tuple_item latest_crosslinks shard
        {| epoch := current; shard_block_root := winning_root |})
   ∧ ∀ current,
       current_epoch env state config.(EPOCH_LENGTH) = Ok current →
       0 <= shard < Z.of_nat (length latest_crosslinks) →
       step
       = Ok (<[Z.to_nat shard :=
                 {| epoch := current; shard_block_root := winning_root |}]>
               latest_crosslinks))
  ∧ (3 * total_attesting_balance < 2 * total_balance →
     step = Ok latest_crosslinks)
  ∧ (total_balance = 300 → total_attesting_balance = 150 →
     step = Ok latest_crosslinks).
Proof.
  intros Hroot Hsum step.
  assert (Hstep : step
                  = if 3 * total_attesting_balance >=? 2 * total_balance
                    then current ← current_epoch env state config.(EPOCH_LENGTH);
                         update_tuple_item latest_crosslinks shard
                           {| epoch := current;
                              shard_block_root := winning_root |}
                    else Ok latest_crosslinks).
  { subst step. unfold crosslink_committee_step.
    rewrite Hroot, Hsum. reflexivity. }
  rewrite Hstep.
  split; [| split].
  - intros Hge.
    destruct (Z.geb_spec (3 * total_attesting_balance) (2 * total_balance));
      [| lia].
    split; [reflexivity |].
    intros current Hcur Hshard. rewrite Hcur. cbn.
    now apply update_tuple_item_in_range.
  - intros Hlt.
    destruct (Z.geb_spec (3 * total_attesting_balance) (2 * total_balance));
      [lia | reflexivity].
  - intros -> ->. reflexivity.
Qed.

Lemma process_crosslinks_inv state config state' :
  process_crosslinks env state config = Ok state' →
  ∃ latest_crosslinks, state' = set_latest_crosslinks latest_crosslinks state.
Proof.
  unfold process_crosslinks. intros H.
  bind_inv H pea Hpea. bind_inv H cea Hcea. bind_inv H prev Hprev.
  bind_inv H next Hnext. bind_inv H lc Hlc.
  injection H as <-. eauto.
Qed.

(** C9: the state [process_crosslinks] returns has every field of the input
    state but latest_crosslinks. *)
Theorem process_crosslinks_frame state config state' :
  process_crosslinks env state config = Ok state' →
  same_but_latest_crosslinks state state'.
Proof.
  intros H. apply process_crosslinks_inv in H. destruct H as [lc ->].
  destruct state. repeat split.
Qed.

End Crosslinks.

(** The whole of [process_crosslinks] on the slots 20 to 27, whose only
    committee has a total effective balance of 300: an attesting balance of
    150 leaves the crosslinks as they are, one of 200 replaces the record of
    shard 1 with the current epoch, 6, and the winning root. *)
Example process_crosslinks_below_threshold :
  process_crosslinks below_threshold_env small_state small_config
  = Ok small_state.
Proof. reflexivity. Qed.

Example process_crosslinks_at_threshold :
  process_crosslinks at_threshold_env small_state small_config
  = Ok small_state_crosslinked.
Proof. reflexivity. Qed.

(** A shard without a winning root is passed over; the exception does not
    leave [process_crosslinks]. *)
Example process_crosslinks_no_winning_root :
  process_crosslinks
    (slot_epochs_env (0, 0) one_committee no_winning_root 1)
    small_state small_config
  = Ok small_state.
Proof. reflexivity. Qed.

Lemma process_crosslinks_frame_witness :
  process_crosslinks at_threshold_env small_state small_config
  = Ok small_state_crosslinked ∧
  same_but_latest_crosslinks small_state small_state_crosslinked.
Proof.
  split; [reflexivity |].
  apply (process_crosslinks_frame at_threshold_env small_state small_config
           small_state_crosslinked).
  reflexivity.
Defined.

(** ** Validator registry *)

Section Registry.

Variable env : Env.

Lemma process_validator_registry_inv state config state' :
  process_validator_registry env state config = Ok state' →
  ∃ need n,
    _check_if_update_validator_registry env (registry_snapshot state) config
    = Ok (need, n) ∧
    ((need = true ∧
      ∃ next start_shard seed,
        state' = registry_updated state next start_shard seed)
     ∨ (need = false ∧
        ∃ current,
          current_epoch env (registry_snapshot state) config.(EPOCH_LENGTH)
          = Ok current ∧
          ((is_power_of_two env
              (current - state.(validator_registry_update_epoch)) = Ok true ∧
            ∃ next seed, state' = seed_refreshed state next seed)
           ∨ (is_power_of_two env
                (current - state.(validator_registry_update_epoch)) = Ok false ∧
              state' = registry_snapshot state)))).
Proof.
  unfold process_validator_registry. fold (registry_snapshot state).
  assert (Hvrue : (registry_snapshot state).(validator_registry_update_epoch)
                  = state.(validator_registry_update_epoch))
    by (destruct state; reflexivity).
  intros H. bind_inv H check Hcheck. destruct check as [need n].
  exists need, n. split; [assumption |].
  destruct need.
  - left. split; [reflexivity |].
    bind_inv H next Hnext. bind_inv H start_shard Hshard. bind_inv H seed Hseed.
    injection H as <-. exists next, start_shard, seed. reflexivity.
  - right. split; [reflexivity |].
    bind_inv H current Hcur. exists current. split; [assumption |].
    rewrite Hvrue in H.
    bind_inv H power Hpower. destruct power.
    + left. split; [assumption |].
      bind_inv H next Hnext. bind_inv H seed Hseed.
      injection H as <-. exists next, seed. reflexivity.
    + right. split; [assumption |]. now injection H as <-.
Qed.

(** C7: in the state [process_validator_registry] returns,
    previous_calculation_epoch, previous_epoch_start_shard and
    previous_epoch_seed are the current_calculation_epoch,
    current_epoch_start_shard and current_epoch_seed of the input state.
    The snapshot is taken first: the update check runs on the snapshot, and
    the result is the snapshot with the registry update applied, or with the
    seed refreshed, or the snapshot itself. *)
Theorem process_validator_registry_snapshot state config state' :
  process_validator_registry env state config = Ok state' →
  (state'.(previous_calculation_epoch) = state.(current_calculation_epoch) ∧
   state'.(previous_epoch_start_shard) = state.(current_epoch_start_shard) ∧
   state'.(previous_epoch_seed) = state.(current_epoch_seed)) ∧
  ∃ need n,
    _check_if_update_validator_registry env (registry_snapshot state) config
    = Ok (need, n) ∧
    ((need = true ∧
      ∃ next start_shard seed,
        state' = registry_updated state next start_shard seed)
     ∨ (need = false ∧
        ((∃ next seed, state' = seed_refreshed state next seed)
         ∨ state' = registry_snapshot state))).
Proof.
  intros H. apply process_validator_registry_inv in H.
  destruct H as (need & n & Hcheck & Hcases). split.
  - destruct Hcases
      as [(_ & next & shard & seed & ->)
         | (_ & current & _ & [(_ & next & seed & ->) | (_ & ->)])];
      destruct state; repeat split.
  - exists need, n. split; [assumption |].
    destruct Hcases
      as [(-> & Hupd) | (-> & current & _ & [(_ & Href) | (_ & ->)])];
      [left | right | right]; split; auto.
Qed.

End Registry.

(** The three ways, run.  On [due_state] the registry is updated: the next
    epoch is 7, the start shard moves from 1 to 0. *)
Example registry_update_run :
  process_validator_registry registry_env due_state small_config
  = Ok (registry_updated due_state 7 0 (a_root x26)).
Proof. reflexivity. Qed.

(** On [small_state] the last update was 4 epochs ago: the seed is
    refreshed. *)
Example seed_refresh_run :
  process_validator_registry registry_env small_state small_config
  = Ok (seed_refreshed small_state 7 (a_root x26)).
Proof. reflexivity. Qed.

(** On [idle_state] it was 3 epochs ago: only the snapshot is taken. *)
Example no_change_run :
  process_validator_registry registry_env idle_state small_config
  = Ok (registry_snapshot idle_state).
Proof. reflexivity. Qed.

Lemma process_validator_registry_snapshot_witness :
  process_validator_registry registry_env due_state small_config
  = Ok (registry_updated due_state 7 0 (a_root x26)) ∧
  (registry_updated due_state 7 0 (a_root x26)).(previous_calculation_epoch)
  = due_state.(current_calculation_epoch) ∧
  (registry_updated due_state 7 0 (a_root x26)).(previous_epoch_start_shard)
  = due_state.(current_epoch_start_shard) ∧
  (registry_updated due_state 7 0 (a_root x26)).(previous_epoch_seed)
  = due_state.(current_epoch_seed).
Proof.
  split; [reflexivity |].
  apply (process_validator_registry_snapshot registry_env due_state
           small_config (registry_updated due_state 7 0 (a_root x26))).
  reflexivity.
Defined.

(** ** Final updates *)

Lemma update_tuple_item_lookup {A} (l l' : list A) (i : Z) (v : A) :
  0 <= i → update_tuple_item l i v = Ok l' → l' !! Z.to_nat i = Some v.
Proof.
  intros Hi. unfold update_tuple_item.
  destruct (Z.ltb_spec i 0); [lia |].
  destruct (Z.leb_spec 0 i); [| lia].
  destruct (Z.ltb_spec i (Z.of_nat (length l))); [| discriminate].
  intros [= <-]. apply list_lookup_insert_eq. lia.
Qed.

Section FinalUpdates.

Variable env : Env.

Lemma _update_latest_active_index_roots_inv state committee_config state1 :
  _update_latest_active_index_roots env state committee_config = Ok state1 →
  ∃ roots, state1 = set_latest_active_index_roots roots state.
Proof.
  unfold _update_latest_active_index_roots. intros H.
  bind_inv H next Hnext. bind_inv H joined Hjoined. bind_inv H i Hi.
  bind_inv H roots Hroots. injection H as <-. eauto.
Qed.

Lemma get_randao_mix_inv state epoch epoch_length len mix :
  get_randao_mix env state epoch epoch_length len = Ok mix →
  len ≠ 0 ∧ Py.getitem state.(latest_randao_mixes) (epoch mod len) = Ok mix.
Proof.
  unfold get_randao_mix. intros H.
  bind_inv H state_epoch Hse. bind_inv H u Hvalid. bind_inv H i Hi.
  unfold Py.modulo in Hi. destruct (Z.eqb_spec len 0); [discriminate |].
  injection Hi as <-. auto.
Qed.

(** C6: [process_final_updates] copies the entry of the input state's
    latest_slashed_balances at [current_epoch % LATEST_SLASHED_EXIT_LENGTH]
    into [next_epoch % LATEST_SLASHED_EXIT_LENGTH], and writes the RANDAO mix
    of the current epoch, the entry of the input state's latest_randao_mixes
    at [current_epoch % LATEST_RANDAO_MIXES_LENGTH], into latest_randao_mixes
    at [next_epoch % LATEST_SLASHED_EXIT_LENGTH]: the modulus of the write is
    the length of the slashed-balances buffer. *)
Theorem process_final_updates_copy_forward state config state' :
  process_final_updates env state config = Ok state' →
  ∃ current next slashed_balance randao_mix,
    current_epoch env state config.(EPOCH_LENGTH) = Ok current ∧
    next_epoch env state config.(EPOCH_LENGTH) = Ok next ∧
    config.(LATEST_SLASHED_EXIT_LENGTH) ≠ 0 ∧
    config.(LATEST_RANDAO_MIXES_LENGTH) ≠ 0 ∧
    Py.getitem state.(latest_slashed_balances)
      (current mod config.(LATEST_SLASHED_EXIT_LENGTH)) = Ok slashed_balance ∧
    update_tuple_item state.(latest_slashed_balances)
      (next mod config.(LATEST_SLASHED_EXIT_LENGTH)) slashed_balance
    = Ok state'.(latest_slashed_balances) ∧
    Py.getitem state.(latest_randao_mixes)
      (current mod config.(LATEST_RANDAO_MIXES_LENGTH)) = Ok randao_mix ∧
    update_tuple_item state.(latest_randao_mixes)
      (next mod config.(LATEST_SLASHED_EXIT_LENGTH)) randao_mix
    = Ok state'.(latest_randao_mixes) ∧
    (0 < config.(LATEST_SLASHED_EXIT_LENGTH) →
     state'.(latest_slashed_balances)
       !! Z.to_nat (next mod config.(LATEST_SLASHED_EXIT_LENGTH))
     = Some slashed_balance ∧
     state'.(latest_randao_mixes)
       !! Z.to_nat (next mod config.(LATEST_SLASHED_EXIT_LENGTH))
     = Some randao_mix).
Proof.
  unfold process_final_updates. intros H.
  bind_inv H current Hcur. bind_inv H next Hnext. bind_inv H state1 Hstate1.
  apply _update_latest_active_index_roots_inv in Hstate1.
  destruct Hstate1 as [roots ->].
  bind_inv H next_index Hni.
  unfold Py.modulo in Hni.
  destruct (Z.eqb_spec config.(LATEST_SLASHED_EXIT_LENGTH) 0) as [| Hls];
    [discriminate |].
  injection Hni as <-.
  rewrite !modulo_ok in H by assumption. cbn in H.
  bind_inv H slashed_balance Hsb. bind_inv H balances Hbalances.
  bind_inv H randao_mix Hmix. bind_inv H mixes Hmixes.
  bind_inv H attestations Hatts. injection H as <-.
  apply get_randao_mix_inv in Hmix. destruct Hmix as [Hlrm Hmix].
  exists current, next, slashed_balance, randao_mix.
  assert (Hsb' : latest_slashed_balances (set_latest_active_index_roots roots state)
                 = latest_slashed_balances state) by (destruct state; reflexivity).
  assert (Hrm' : latest_randao_mixes (set_latest_active_index_roots roots state)
                 = latest_randao_mixes state) by (destruct state; reflexivity).
  rewrite Hsb' in Hsb, Hbalances. rewrite Hrm' in Hmix, Hmixes.
  assert (Hb : latest_slashed_balances
                 (set_latest_attestations attestations
                    (set_latest_randao_mixes mixes
                       (set_latest_slashed_balances balances
                          (set_latest_active_index_roots roots state))))
               = balances) by (destruct state; reflexivity).
  assert (Hm : latest_randao_mixes
                 (set_latest_attestations attestations
                    (set_latest_randao_mixes mixes
                       (set_latest_slashed_balances balances
                          (set_latest_active_index_roots roots state))))
               = mixes) by (destruct state; reflexivity).
  rewrite Hb, Hm.
  repeat (split; [assumption |]).
  intros Hpos.
  assert (0 <= next mod config.(LATEST_SLASHED_EXIT_LENGTH))
    by (apply Z.mod_pos_bound; lia).
  split; eapply update_tuple_item_lookup; eassumption.
Qed.

End FinalUpdates.

Example final_updates_run :
  process_final_updates registry_env small_state small_config
  = Ok small_state_final.
Proof. reflexivity. Qed.

Lemma process_final_updates_copy_forward_witness :
  process_final_updates registry_env small_state small_config
  = Ok small_state_final ∧
  ∃ current next slashed_balance randao_mix,
    current_epoch registry_env small_state small_config.(EPOCH_LENGTH)
    = Ok current ∧
    next_epoch registry_env small_state small_config.(EPOCH_LENGTH) = Ok next ∧
    small_config.(LATEST_SLASHED_EXIT_LENGTH) ≠ 0 ∧
    small_config.(LATEST_RANDAO_MIXES_LENGTH) ≠ 0 ∧
    Py.getitem small_state.(latest_slashed_balances)
      (current mod small_config.(LATEST_SLASHED_EXIT_LENGTH))
    = Ok slashed_balance ∧
    update_tuple_item small_state.(latest_slashed_balances)
      (next mod small_config.(LATEST_SLASHED_EXIT_LENGTH)) slashed_balance
    = Ok small_state_final.(latest_slashed_balances) ∧
    Py.getitem small_state.(latest_randao_mixes)
      (current mod small_config.(LATEST_RANDAO_MIXES_LENGTH)) = Ok randao_mix ∧
    update_tuple_item small_state.(latest_randao_mixes)
      (next mod small_config.(LATEST_SLASHED_EXIT_LENGTH)) randao_mix
    = Ok small_state_final.(latest_randao_mixes) ∧
    (0 < small_config.(LATEST_SLASHED_EXIT_LENGTH) →
     small_state_final.(latest_slashed_balances)
       !! Z.to_nat (next mod small_config.(LATEST_SLASHED_EXIT_LENGTH))
     = Some slashed_balance ∧
     small_state_final.(latest_randao_mixes)
       !! Z.to_nat (next mod small_config.(LATEST_SLASHED_EXIT_LENGTH))
     = Some randao_mix).
Proof.
  split; [reflexivity |].
  apply (process_final_updates_copy_forward registry_env small_state
           small_config small_state_final).
  reflexivity.
Defined.

(** In the run above the mix of epoch 6 lands in slot 3 = 7 mod 4 of
    latest_randao_mixes; slot 7 = 7 mod 8 keeps its old mix. *)
Example final_updates_mix_slot :
  small_state_final.(latest_randao_mixes) !! 3%nat
  = small_state.(latest_randao_mixes) !! 6%nat ∧
  small_state_final.(latest_randao_mixes) !! 7%nat
  = small_state.(latest_randao_mixes) !! 7%nat ∧
  small_state_final.(latest_slashed_balances) !! 3%nat
  = small_state.(latest_slashed_balances) !! 2%nat.
Proof. repeat split. Qed.

(** * Further properties of the code *)

(** ** Slots and epochs *)

(** X1: The start slot of an epoch is a slot of that epoch. *)
Lemma epoch_start_slot_round_trip (epoch epoch_length : Z) :
  epoch_length ≠ 0 →
  slot_to_epoch (get_epoch_start_slot epoch epoch_length) epoch_length
  = Ok epoch.
Proof.
  intros Hl. unfold get_epoch_start_slot.
  rewrite slot_to_epoch_ok by assumption. now rewrite Z.div_mul.
Qed.

Lemma epoch_start_slot_round_trip_witness :
  4 ≠ 0 ∧ slot_to_epoch (get_epoch_start_slot 6 4) 4 = Ok 6.
Proof.
  split; [lia |]. apply (epoch_start_slot_round_trip 6 4). lia.
Defined.

(** X2: A slot lies between the start of its epoch and the start of the next. *)
Lemma slot_within_its_epoch (slot epoch_length : Z) :
  0 < epoch_length →
  ∃ epoch,
    slot_to_epoch slot epoch_length = Ok epoch ∧
    get_epoch_start_slot epoch epoch_length <= slot
    < get_epoch_start_slot (epoch + 1) epoch_length.
Proof.
  intros Hl. exists (slot / epoch_length).
  split; [apply slot_to_epoch_ok; lia |].
  unfold get_epoch_start_slot.
  pose proof (Z.mul_div_le slot epoch_length Hl).
  pose proof (Z.mul_succ_div_gt slot epoch_length Hl).
  lia.
Qed.

Lemma slot_within_its_epoch_witness :
  0 < 4 ∧
  ∃ epoch,
    slot_to_epoch 27 4 = Ok epoch ∧
    get_epoch_start_slot epoch 4 <= 27 < get_epoch_start_slot (epoch + 1) 4.
Proof.
  split; [lia |]. apply (slot_within_its_epoch 27 4). lia.
Defined.

(** ** Block roots *)

(** X3: Two slots that [get_block_root] serves from the same position of the
    buffer are the same slot: inside the window nothing is overwritten. *)
Lemma get_block_root_no_alias (state : BeaconState)
    (slot1 slot2 latest_block_roots_length : Z) (root1 root2 : Hash32) :
  get_block_root state slot1 latest_block_roots_length = Ok root1 →
  get_block_root state slot2 latest_block_roots_length = Ok root2 →
  slot1 mod latest_block_roots_length = slot2 mod latest_block_roots_length →
  slot1 = slot2.
Proof.
  unfold get_block_root. intros H1 H2 Hmod.
  apply _get_block_root_in_window in H1. destruct H1 as [[Hlo1 Hhi1] _].
  apply _get_block_root_in_window in H2. destruct H2 as [[Hlo2 Hhi2] _].
  assert (Hpos : 0 < latest_block_roots_length) by lia.
  pose proof (Z.div_mod slot1 latest_block_roots_length ltac:(lia)) as E1.
  pose proof (Z.div_mod slot2 latest_block_roots_length ltac:(lia)) as E2.
  rewrite Hmod in E1.
  assert (slot1 / latest_block_roots_length = slot2 / latest_block_roots_length)
    by nia.
  congruence.
Qed.

Lemma get_block_root_no_alias_witness :
  get_block_root small_state 21 4 = Ok (a_root x11) ∧
  get_block_root small_state 21 4 = Ok (a_root x11) ∧
  21 mod 4 = 21 mod 4 ∧ 21 = 21.
Proof.
  assert (H : get_block_root small_state 21 4 = Ok (a_root x11)) by reflexivity.
  split; [exact H |]. split; [exact H |]. split; [reflexivity |].
  exact (get_block_root_no_alias small_state 21 21 4 _ _ H H eq_refl).
Defined.

(** ** Balances *)

Lemma getitem_ok_iff {A} (l : list A) (i : Z) :
  (∃ x, Py.getitem l i = Ok x) ↔ valid_index (length l) i.
Proof.
  unfold Py.getitem, valid_index.
  set (n := Z.of_nat (length l)).
  destruct (Z.ltb_spec i 0) as [Hneg | Hpos].
  - destruct (Z.leb_spec 0 (i + n)); cbn [andb].
    + destruct (Z.ltb_spec (i + n) n); [| lia].
      destruct (lookup_lt_is_Some_2 l (Z.to_nat (i + n))) as [x Hx];
        [subst n; lia |].
      rewrite Hx. split; [lia | eauto].
    + split; [intros [x Hx]; discriminate | lia].
  - destruct (Z.leb_spec 0 i); [| lia]. cbn [andb].
    destruct (Z.ltb_spec i n).
    + destruct (lookup_lt_is_Some_2 l (Z.to_nat i)) as [x Hx];
        [subst n; lia |].
      rewrite Hx. split; [lia | eauto].
    + split; [intros [x Hx]; discriminate | lia].
Qed.

Lemma getitem_raises {A} (l : list A) (i : Z) (e : exn) :
  Py.getitem l i = Raise e → e = IndexError.
Proof.
  unfold Py.getitem.
  destruct (_ && _); [destruct (l !! _) |]; congruence.
Qed.

Lemma get_effective_balance_ok_iff validator_balances index m :
  (∃ b, get_effective_balance validator_balances index m = Ok b)
  ↔ valid_index (length validator_balances) index.
Proof.
  unfold get_effective_balance.
  rewrite <- (getitem_ok_iff validator_balances index). split.
  - intros [b Hb]. bind_inv Hb x Hx. eauto.
  - intros [x Hx]. rewrite Hx. cbn. eauto.
Qed.

Lemma get_effective_balance_le validator_balances index m b :
  get_effective_balance validator_balances index m = Ok b → b <= m.
Proof.
  unfold get_effective_balance. intros Hb.
  bind_inv Hb x Hx. injection Hb as <-. lia.
Qed.

(** X4: [get_effective_balance] returns exactly for the indices the tuple
    accepts (the negative ones included), raises IndexError for the others,
    and what it returns is the balance at the index capped at
    max_deposit_amount. *)
Lemma get_effective_balance_capped (validator_balances : list Z)
    (index max_deposit_amount : Z) :
  ((∃ b, get_effective_balance validator_balances index max_deposit_amount = Ok b)
   ↔ valid_index (length validator_balances) index)
  ∧ (¬ valid_index (length validator_balances) index →
     get_effective_balance validator_balances index max_deposit_amount
     = Raise IndexError)
  ∧ (∀ b,
       get_effective_balance validator_balances index max_deposit_amount = Ok b →
       b <= max_deposit_amount ∧
       ∃ balance,
         Py.getitem validator_balances index = Ok balance ∧
         b <= balance ∧ (b = balance ∨ b = max_deposit_amount)).
Proof.
  unfold get_effective_balance.
  pose proof (getitem_ok_iff validator_balances index) as Hiff.
  split; [| split].
  - rewrite <- Hiff. split.
    + intros [b Hb]. bind_inv Hb x Hx. eauto.
    + intros [x Hx]. rewrite Hx. cbn. eauto.
  - intros Hbad.
    destruct (Py.getitem validator_balances index) as [x | e] eqn:E.
    + exfalso. apply Hbad, Hiff. eauto.
    + apply getitem_raises in E. now subst e.
  - intros b Hb. bind_inv Hb x Hx. injection Hb as <-.
    split; [lia |]. exists x. split; [exact Hx |]. lia.
Qed.

Lemma sum_effective_balances_app validator_balances indices1 indices2 m :
  sum_effective_balances validator_balances (indices1 ++ indices2) m
  = (t1 ← sum_effective_balances validator_balances indices1 m;
     t2 ← sum_effective_balances validator_balances indices2 m;
     Ok (t1 + t2)).
Proof.
  induction indices1 as [| i rest IH]; cbn.
  - now destruct (sum_effective_balances validator_balances indices2 m).
  - destruct (get_effective_balance validator_balances i m) as [b | e];
      cbn; [| reflexivity].
    rewrite IH.
    destruct (sum_effective_balances validator_balances rest m) as [t1 | e];
      cbn; [| reflexivity].
    destruct (sum_effective_balances validator_balances indices2 m) as [t2 | e];
      cbn; [| reflexivity].
    f_equal. lia.
Qed.

(** X5: The total balance of two index lists one after the other is the sum of
    their total balances, and raises where the first that raises does. *)
Lemma get_total_balance_app (validator_balances : list Z)
    (indices1 indices2 : list Z) (max_deposit_amount : Z) :
  get_total_balance validator_balances (indices1 ++ indices2) max_deposit_amount
  = (t1 ← get_total_balance validator_balances indices1 max_deposit_amount;
     t2 ← get_total_balance validator_balances indices2 max_deposit_amount;
     Ok (t1 + t2)).
Proof. apply sum_effective_balances_app. Qed.

Lemma sum_effective_balances_ok_iff validator_balances indices m :
  (∃ t, sum_effective_balances validator_balances indices m = Ok t)
  ↔ Forall (valid_index (length validator_balances)) indices.
Proof.
  induction indices as [| i rest IH]; cbn.
  - split; [constructor | eauto].
  - pose proof (get_effective_balance_ok_iff validator_balances i m) as Hiff.
    split.
    + intros [t Ht]. bind_inv Ht b Hb. bind_inv Ht s Hs.
      constructor; [apply Hiff; eauto | apply IH; eauto].
    + intros Hall. inversion Hall as [| ? ? Hi Hrest]; subst.
      apply Hiff in Hi. destruct Hi as [b Hb].
      apply IH in Hrest. destruct Hrest as [s Hs].
      rewrite Hb. cbn. rewrite Hs. cbn. eauto.
Qed.

(** X6: [get_total_balance] returns exactly when the tuple of balances accepts
    every index, and the total is then at most max_deposit_amount per index;
    the total of no index is 0. *)
Lemma get_total_balance_bounded (validator_balances : list Z)
    (validator_indices : list Z) (max_deposit_amount : Z) :
  ((∃ t, get_total_balance validator_balances validator_indices
           max_deposit_amount = Ok t)
   ↔ Forall (valid_index (length validator_balances)) validator_indices)
  ∧ (∀ t,
       get_total_balance validator_balances validator_indices
         max_deposit_amount = Ok t →
       t <= Z.of_nat (length validator_indices) * max_deposit_amount)
  ∧ get_total_balance validator_balances [] max_deposit_amount = Ok 0.
Proof.
  unfold get_total_balance. split; [apply sum_effective_balances_ok_iff |].
  split; [| reflexivity].
  induction validator_indices as [| i rest IH]; cbn [sum_effective_balances].
  - intros t [= <-]. cbn. lia.
  - intros t Ht. bind_inv Ht b Hb. bind_inv Ht s Hs. injection Ht as <-.
    apply get_effective_balance_le in Hb.
    specialize (IH s Hs). cbn [length]. lia.
Qed.

(** ** Active validators *)

Section ActiveValidators.

Variable env : Env.

Lemma active_indices_from_elem (start : Z) (validators : list ValidatorRecord)
    (epoch i : Z) :
  i ∈ active_indices_from env start validators epoch
  ↔ start <= i ∧
    ∃ validator,
      validators !! Z.to_nat (i - start) = Some validator ∧
      is_active env validator epoch = true.
Proof.
  revert start. induction validators as [| v rest IH]; intros start; cbn.
  - split; [intros H; inversion H | intros (_ & v & Hv & _); discriminate].
  - assert (Hrest : i ∈ active_indices_from env (start + 1) rest epoch
                    ↔ start < i ∧
                      ∃ validator,
                        (v :: rest) !! Z.to_nat (i - start) = Some validator ∧
                        is_active env validator epoch = true).
    { rewrite IH. split.
      - intros (Hle & w & Hw & Hact). split; [lia |]. exists w.
        split; [| assumption].
        replace (Z.to_nat (i - start)) with (S (Z.to_nat (i - (start + 1))))
          by lia.
        exact Hw.
      - intros (Hlt & w & Hw & Hact). split; [lia |]. exists w.
        split; [| assumption].
        replace (Z.to_nat (i - start)) with (S (Z.to_nat (i - (start + 1))))
          in Hw by lia.
        exact Hw. }
    destruct (is_active env v epoch) eqn:Hv.
    + rewrite elem_of_cons, Hrest. split.
      * intros [-> | (Hlt & w & Hw & Hact)].
        -- split; [lia |]. exists v. rewrite Z.sub_diag. auto.
        -- split; [lia |]. eauto.
      * intros (Hle & w & Hw & Hact).
        destruct (Z.eq_dec i start) as [-> | Hne]; [now left |].
        right. split; [lia |]. eauto.
    + rewrite Hrest. split.
      * intros (Hlt & w & Hw & Hact). split; [lia |]. eauto.
      * intros (Hle & w & Hw & Hact).
        destruct (Z.eq_dec i start) as [-> | Hne].
        -- rewrite Z.sub_diag in Hw. change (Z.to_nat 0) with 0%nat in Hw.
           cbn in Hw. injection Hw as <-. congruence.
        -- split; [lia |]. eauto.
Qed.

Lemma active_indices_from_sorted (start : Z) (validators : list ValidatorRecord)
    (epoch : Z) :
  StronglySorted Z.lt (active_indices_from env start validators epoch).
Proof.
  revert start. induction validators as [| v rest IH]; intros start; cbn.
  - constructor.
  - destruct (is_active env v epoch); [| apply IH].
    constructor; [apply IH |].
    apply List.Forall_forall. intros i Hi.
    apply list_elem_of_In, active_indices_from_elem in Hi. lia.
Qed.

(** X7: [get_active_validator_indices] returns, in increasing order and without
    repetition, exactly the positions of the registry whose validator is
    active at the epoch. *)
Lemma get_active_validator_indices_exact (validators : list ValidatorRecord)
    (epoch : Z) :
  StronglySorted Z.lt (get_active_validator_indices env validators epoch)
  ∧ ∀ i,
      i ∈ get_active_validator_indices env validators epoch
      ↔ 0 <= i ∧
        ∃ validator,
          validators !! Z.to_nat i = Some validator ∧
          is_active env validator epoch = true.
Proof.
  unfold get_active_validator_indices.
  split; [apply active_indices_from_sorted |].
  intros i. rewrite active_indices_from_elem. now rewrite Z.sub_0_r.
Qed.

Lemma active_indices_valid (validators : list ValidatorRecord) (epoch : Z)
    (n : nat) :
  (length validators <= n)%nat →
  Forall (valid_index n) (get_active_validator_indices env validators epoch).
Proof.
  intros Hlen. apply List.Forall_forall. intros i Hi.
  apply list_elem_of_In, active_indices_from_elem in Hi.
  destruct Hi as (Hpos & v & Hv & _).
  apply lookup_lt_Some in Hv. unfold valid_index. lia.
Qed.

(** X8: With a balance for every validator of the registry, the total balance
    of the active validators of any epoch is returned, not raised. *)
Lemma active_total_balance_returns (validators : list ValidatorRecord)
    (validator_balances : list Z) (epoch max_deposit_amount : Z) :
  (length validators <= length validator_balances)%nat →
  ∃ total,
    get_total_balance validator_balances
      (get_active_validator_indices env validators epoch) max_deposit_amount
    = Ok total.
Proof.
  intros Hlen. apply sum_effective_balances_ok_iff.
  now apply active_indices_valid.
Qed.

End ActiveValidators.

Lemma active_total_balance_returns_witness :
  (length small_state.(validator_registry)
   <= length small_state.(validator_balances))%nat ∧
  ∃ total,
    get_total_balance small_state.(validator_balances)
      (get_active_validator_indices registry_env
         small_state.(validator_registry) 6)
      100
    = Ok total.
Proof.
  assert (H : (length small_state.(validator_registry)
               <= length small_state.(validator_balances))%nat) by (cbn; lia).
  split; [exact H |].
  exact (active_total_balance_returns registry_env
           small_state.(validator_registry) small_state.(validator_balances)
           6 100 H).
Defined.

(** ** Forks and domains *)

(** X9: The domain number keeps the fork version above bit 32 and the domain
    type below: for a domain type of 32 bits both are read back. *)
Lemma get_domain_round_trip (fork : Fork.t) (epoch domain_type : Z) :
  0 <= domain_type < 2 ^ 32 →
  get_domain fork epoch domain_type / 2 ^ 32 = get_fork_version fork epoch
  ∧ get_domain fork epoch domain_type mod 2 ^ 32 = domain_type.
Proof.
  intros Hd. unfold get_domain.
  change 4294967296 with (2 ^ 32).
  split.
  - rewrite Z.div_add_l by lia. rewrite Z.div_small by lia. lia.
  - rewrite Z.add_comm, Z.mod_add by lia. now apply Z.mod_small.
Qed.

Lemma get_domain_round_trip_witness :
  0 <= 5 < 2 ^ 32 ∧
  get_domain small_fork 7 5 / 2 ^ 32 = get_fork_version small_fork 7 ∧
  get_domain small_fork 7 5 mod 2 ^ 32 = 5.
Proof.
  split; [lia |]. apply (get_domain_round_trip small_fork 7 5). lia.
Defined.

(** ** Slashing conditions *)

(** X10: [is_double_vote] does not depend on the order of its two attestations,
    whether it returns or raises. *)
Lemma is_double_vote_symmetric (a b : AttestationData.t) (epoch_length : Z) :
  is_double_vote a b epoch_length = is_double_vote b a epoch_length.
Proof.
  unfold is_double_vote, slot_to_epoch, Py.floordiv.
  destruct (epoch_length =? 0); [reflexivity |]. cbn.
  now rewrite Z.eqb_sym.
Qed.

(** X11: No pair of attestations is both a double vote and a surround vote. *)
Lemma double_vote_excludes_surround_vote (a b : AttestationData.t)
    (epoch_length : Z) :
  ¬ (is_double_vote a b epoch_length = Ok true
     ∧ is_surround_vote a b epoch_length = Ok true).
Proof.
  unfold is_double_vote, is_surround_vote, slot_to_epoch, Py.floordiv.
  destruct (epoch_length =? 0); cbn; [intros [H _]; discriminate |].
  intros [[= Hd] [= Hs]].
  apply Z.eqb_eq in Hd. apply andb_true_iff in Hs. destruct Hs as [_ Hs].
  apply Z.ltb_lt in Hs. lia.
Qed.

(** X12: Surrounding is transitive. *)
Lemma is_surround_vote_transitive (a b c : AttestationData.t)
    (epoch_length : Z) :
  is_surround_vote a b epoch_length = Ok true →
  is_surround_vote b c epoch_length = Ok true →
  is_surround_vote a c epoch_length = Ok true.
Proof.
  unfold is_surround_vote, slot_to_epoch, Py.floordiv.
  destruct (epoch_length =? 0); cbn; [discriminate |].
  intros [= Hab] [= Hbc]. f_equal.
  apply andb_true_iff in Hab, Hbc. apply andb_true_iff.
  rewrite !Z.ltb_lt in *. lia.
Qed.

Lemma is_surround_vote_transitive_witness :
  is_surround_vote
    {| AttestationData.slot := 40; AttestationData.shard := 0;
       AttestationData.justified_epoch := 1 |}
    {| AttestationData.slot := 30; AttestationData.shard := 0;
       AttestationData.justified_epoch := 2 |} 4 = Ok true ∧
  is_surround_vote
    {| AttestationData.slot := 30; AttestationData.shard := 0;
       AttestationData.justified_epoch := 2 |}
    {| AttestationData.slot := 20; AttestationData.shard := 0;
       AttestationData.justified_epoch := 3 |} 4 = Ok true ∧
  is_surround_vote
    {| AttestationData.slot := 40; AttestationData.shard := 0;
       AttestationData.justified_epoch := 1 |}
    {| AttestationData.slot := 20; AttestationData.shard := 0;
       AttestationData.justified_epoch := 3 |} 4 = Ok true.
Proof.
  split; [reflexivity |]. split; [reflexivity |].
  exact (is_surround_vote_transitive
           {| AttestationData.slot := 40; AttestationData.shard := 0;
              AttestationData.justified_epoch := 1 |}
           {| AttestationData.slot := 30; AttestationData.shard := 0;
              AttestationData.justified_epoch := 2 |}
           {| AttestationData.slot := 20; AttestationData.shard := 0;
              AttestationData.justified_epoch := 3 |} 4 eq_refl eq_refl).
Defined.

(** ** Seeds *)

Lemma byte_of_Z_value (z : Z) :
  Z.of_N (Byte.to_N (Py.byte_of_Z z)) = z mod 256.
Proof.
  unfold Py.byte_of_Z.
  pose proof (Z.mod_pos_bound z 256 ltac:(lia)) as Hmod.
  destruct (Byte.of_N (Z.to_N (z mod 256))) as [b |] eqn:E; cbn.
  - apply Byte.to_of_N in E. rewrite E. lia.
  - apply Byte.of_N_None_iff in E. lia.
Qed.

Lemma le_bytes_length (n : nat) (z : Z) : length (Py.le_bytes n z) = n.
Proof. revert z. induction n as [| n IH]; intros z; cbn; [| rewrite IH]; reflexivity. Qed.

Lemma le_bytes_round_trip (n : nat) (z : Z) :
  0 <= z < 256 ^ Z.of_nat n → from_bytes_little (Py.le_bytes n z) = z.
Proof.
  revert z. induction n as [| n IH]; intros z Hz.
  - cbn in *. lia.
  - cbn [Py.le_bytes from_bytes_little].
    rewrite byte_of_Z_value, IH.
    + pose proof (Z.div_mod z 256 ltac:(lia)). lia.
    + rewrite Nat2Z.inj_succ, Z.pow_succ_r in Hz by lia.
      split; [apply Z.div_pos; lia |].
      apply Z.div_lt_upper_bound; lia.
Qed.

Section Seeds.

Variable env : Env.

(** X13: A seed is generated only for an epoch that fits in 32 bytes, from the
    RANDAO mix of [epoch - min_seed_lookahead] and the active index root of
    [epoch]; the hashed bytes end with 32 bytes that decode, little-endian,
    to the epoch. *)
Lemma generate_seed_preimage (state : BeaconState)
    (epoch epoch_length min_seed_lookahead activation_exit_delay
     latest_active_index_roots_length latest_randao_mixes_length : Z)
    (seed : Hash32) :
  generate_seed env state epoch epoch_length min_seed_lookahead
    activation_exit_delay latest_active_index_roots_length
    latest_randao_mixes_length = Ok seed →
  0 <= epoch < 2 ^ 256 ∧
  ∃ randao_mix active_index_root epoch_as_bytes,
    get_randao_mix env state (epoch - min_seed_lookahead) epoch_length
      latest_randao_mixes_length = Ok randao_mix ∧
    get_active_index_root env state epoch epoch_length activation_exit_delay
      latest_active_index_roots_length = Ok active_index_root ∧
    length epoch_as_bytes = 32%nat ∧
    from_bytes_little epoch_as_bytes = epoch ∧
    seed = hash_eth2 env (randao_mix ++ active_index_root ++ epoch_as_bytes).
Proof.
  unfold generate_seed. intros H.
  bind_inv H randao_mix Hmix. bind_inv H active_index_root Hroot.
  bind_inv H epoch_as_bytes Hbytes. injection H as <-.
  unfold Py.to_bytes_little in Hbytes.
  destruct (Z.leb_spec 0 epoch); [| discriminate].
  destruct (Z.ltb_spec epoch (256 ^ Z.of_nat 32)) as [Hlt |]; [| discriminate].
  cbn [andb] in Hbytes. injection Hbytes as <-.
  assert (E : 256 ^ Z.of_nat 32 = 2 ^ 256) by reflexivity.
  split; [lia |].
  exists randao_mix, active_index_root, (Py.le_bytes 32 epoch).
  split; [assumption |]. split; [assumption |].
  split; [apply le_bytes_length |].
  split; [apply le_bytes_round_trip; lia | reflexivity].
Qed.

End Seeds.

Lemma generate_seed_preimage_witness :
  generate_seed registry_env small_state 7 4 1 1 8 8 = Ok (a_root x26) ∧
  0 <= 7 < 2 ^ 256.
Proof.
  assert (H : generate_seed registry_env small_state 7 4 1 1 8 8
              = Ok (a_root x26)) by reflexivity.
  split; [exact H |].
  exact (proj1 (generate_seed_preimage registry_env small_state 7 4 1 1 8 8
                  (a_root x26) H)).
Defined.

(** ** Finality rules *)

Lemma mask_bit (a m k : Z) :
  Z.land a m = m → Z.testbit m k = true → Z.testbit a k = true.
Proof.
  intros Hland Hm.
  assert (H : Z.testbit (Z.land a m) k = true) by now rewrite Hland.
  rewrite Z.land_spec in H. now apply andb_true_iff in H.
Qed.

Lemma no_mask_without_bit_1 (b : Z) :
  Z.testbit b 1 = false →
  (b mod 4 =? 3) = false ∧ (b mod 8 =? 7) = false ∧
  (Z.shiftr b 1 mod 4 =? 3) = false ∧ (Z.shiftr b 1 mod 8 =? 7) = false.
Proof.
  intros Hbit.
  assert (Hshift : Z.testbit (Z.shiftr b 1) 0 = false)
    by (rewrite Z.shiftr_spec by lia; exact Hbit).
  repeat split; apply Z.eqb_neq; intros E;
    rewrite <- ?land_3, <- ?land_7 in E.
  - apply (mask_bit _ _ 1) in E; [congruence | reflexivity].
  - apply (mask_bit _ _ 1) in E; [congruence | reflexivity].
  - apply (mask_bit _ _ 0) in E; [congruence | reflexivity].
  - apply (mask_bit _ _ 0) in E; [congruence | reflexivity].
Qed.

(** X14: Every rule needs bit 1 of the bitfield, the bit of the previous epoch:
    where it is clear, the finalized epoch comes back unchanged. *)
Lemma get_finalized_epoch_needs_bit_1
    (bitfield previous_justified_epoch justified_epoch finalized_epoch
     previous_epoch : Z) :
  Z.testbit bitfield 1 = false →
  _get_finalized_epoch bitfield previous_justified_epoch justified_epoch
    finalized_epoch previous_epoch = (finalized_epoch, 0).
Proof.
  intros Hbit. unfold _get_finalized_epoch.
  destruct (no_mask_without_bit_1 bitfield Hbit) as (H4 & H8 & H4' & H8').
  now rewrite H4, H8, H4', H8'.
Qed.

Lemma get_finalized_epoch_needs_bit_1_witness :
  Z.testbit 5 1 = false ∧ _get_finalized_epoch 5 8 9 1 9 = (1, 0).
Proof.
  split; [reflexivity |].
  apply (get_finalized_epoch_needs_bit_1 5 8 9 1 9). reflexivity.
Defined.

(** X15: When a rule fires, the epoch it finalizes is the previous epoch or one
    of the two epochs before it. *)
Lemma get_finalized_epoch_recent
    (bitfield previous_justified_epoch justified_epoch finalized_epoch
     previous_epoch : Z) :
  snd (_get_finalized_epoch bitfield previous_justified_epoch justified_epoch
         finalized_epoch previous_epoch) ≠ 0 →
  previous_epoch - 2
  <= fst (_get_finalized_epoch bitfield previous_justified_epoch
            justified_epoch finalized_epoch previous_epoch)
  <= previous_epoch.
Proof.
  unfold _get_finalized_epoch.
  destruct (Z.eqb_spec justified_epoch previous_epoch);
    destruct (Z.eqb_spec justified_epoch (previous_epoch - 1));
    destruct (Z.eqb_spec previous_justified_epoch (previous_epoch - 1));
    destruct (Z.eqb_spec previous_justified_epoch (previous_epoch - 2));
    repeat match goal with
           | |- context [?x =? ?y] => destruct (x =? y)
           end; cbn; lia.
Qed.

Lemma get_finalized_epoch_recent_witness :
  snd (_get_finalized_epoch 14 7 7 1 9) ≠ 0 ∧
  9 - 2 <= fst (_get_finalized_epoch 14 7 7 1 9) <= 9.
Proof.
  assert (H : snd (_get_finalized_epoch 14 7 7 1 9) ≠ 0)
    by (vm_compute; discriminate).
  split; [exact H |].
  exact (get_finalized_epoch_recent 14 7 7 1 9 H).
Defined.

(** ** More on justification *)

Section JustificationMore.

Variable env : Env.

(** X16: With no validator active in either epoch both total balances are 0, and
    an epoch is justifiable as soon as its boundary attesting balance is not
    negative. *)
Lemma no_active_validator_justifiable (state : BeaconState)
    (current previous : Z) (config : BeaconConfig)
    (previous_balance current_balance : Z) :
  get_active_validator_indices env state.(validator_registry) current = [] →
  get_active_validator_indices env state.(validator_registry) previous = [] →
  get_epoch_boundary_attesting_balances env current previous state config
  = Ok (previous_balance, current_balance) →
  _current_previous_epochs_justifiable env state current previous config
  = Ok (0 <=? current_balance, 0 <=? previous_balance).
Proof.
  intros Hc Hp Hb. unfold _current_previous_epochs_justifiable.
  rewrite Hc, Hp. cbn. rewrite Hb. cbn. do 2 f_equal.
  - destruct (Z.geb_spec (3 * current_balance) 0);
      destruct (Z.leb_spec 0 current_balance); try reflexivity; lia.
  - destruct (Z.geb_spec (3 * previous_balance) 0);
      destruct (Z.leb_spec 0 previous_balance); try reflexivity; lia.
Qed.

(** X17: [process_justification] replaces four fields and no other. *)
Lemma process_justification_frame state config state' :
  process_justification env state config = Ok state' →
  justification_frame state' = justification_frame state.
Proof.
  intros H. apply process_justification_inv in H.
  destruct H as (current & previous & cj & pj & _ & _ & _ & ->).
  destruct state; reflexivity.
Qed.

(** X18: The old justified epoch becomes the previous justified epoch, and the
    new one is the current epoch if it is justifiable, else the previous
    epoch if that is, else the old one. *)
Lemma process_justification_epochs state config state' :
  process_justification env state config = Ok state' →
  state'.(previous_justified_epoch) = state.(justified_epoch) ∧
  ∃ current previous cj pj,
    current_epoch env state config.(EPOCH_LENGTH) = Ok current ∧
    previous_epoch env state config.(EPOCH_LENGTH) config.(GENESIS_EPOCH)
    = Ok previous ∧
    _current_previous_epochs_justifiable env state current previous config
    = Ok (cj, pj) ∧
    state'.(justified_epoch)
    = (if cj then current else if pj then previous
       else state.(justified_epoch)).
Proof.
  intros H. apply process_justification_inv in H.
  destruct H as (current & previous & cj & pj & Hc & Hp & Hf & ->).
  split; [destruct state; reflexivity |].
  exists current, previous, cj, pj. repeat (split; [assumption |]).
  destruct state; reflexivity.
Qed.

(** X19: Where bit 1 of the stored bitfield is clear (the previous epoch is not
    justifiable and bit 0 of the old bitfield was clear), the finalized epoch
    does not move. *)
Lemma process_justification_no_finality_without_bit_1 state config state' :
  process_justification env state config = Ok state' →
  Z.testbit state'.(justification_bitfield) 1 = false →
  state'.(finalized_epoch) = state.(finalized_epoch).
Proof.
  intros H. apply process_justification_inv in H.
  destruct H as (current & previous & cj & pj & Hc & Hp & Hf & ->).
  intros Hbit.
  assert (Hbit' : Z.testbit
                    (shifted_bitfield state.(justification_bitfield) cj pj) 1
                  = false) by (destruct state; exact Hbit).
  assert (E : _get_finalized_epoch
                (shifted_bitfield state.(justification_bitfield) cj pj)
                state.(previous_justified_epoch) state.(justified_epoch)
                state.(finalized_epoch) previous
              = (state.(finalized_epoch), 0)).
  { unfold _get_finalized_epoch.
    destruct (no_mask_without_bit_1 _ Hbit') as (H4 & H8 & H4' & H8').
    now rewrite H4, H8, H4', H8'. }
  rewrite E. destruct state; reflexivity.
Qed.

End JustificationMore.

Lemma no_active_validator_justifiable_witness :
  get_active_validator_indices both_epochs_env
    empty_state.(validator_registry) 6 = [] ∧
  get_active_validator_indices both_epochs_env
    empty_state.(validator_registry) 5 = [] ∧
  get_epoch_boundary_attesting_balances both_epochs_env 6 5 empty_state
    small_config = Ok (300, 300) ∧
  _current_previous_epochs_justifiable both_epochs_env empty_state 6 5
    small_config = Ok (0 <=? 300, 0 <=? 300).
Proof.
  split; [reflexivity |]. split; [reflexivity |]. split; [reflexivity |].
  exact (no_active_validator_justifiable both_epochs_env empty_state 6 5
           small_config 300 300 eq_refl eq_refl eq_refl).
Defined.

Lemma process_justification_frame_witness :
  process_justification both_epochs_env advancing_state small_config
  = Ok advancing_state_after ∧
  justification_frame advancing_state_after
  = justification_frame advancing_state.
Proof.
  split; [reflexivity |].
  exact (process_justification_frame both_epochs_env advancing_state
           small_config advancing_state_after eq_refl).
Defined.

Lemma process_justification_epochs_witness :
  process_justification both_epochs_env advancing_state small_config
  = Ok advancing_state_after ∧
  advancing_state_after.(previous_justified_epoch)
  = advancing_state.(justified_epoch).
Proof.
  split; [reflexivity |].
  exact (proj1 (process_justification_epochs both_epochs_env advancing_state
                  small_config advancing_state_after eq_refl)).
Defined.

Lemma process_justification_no_finality_without_bit_1_witness :
  process_justification
    (slot_epochs_env (0, 300) no_committees no_winning_root 0)
    small_state small_config
  = Ok (set_justification_bitfield 1
          (set_justified_epoch 6
             (set_previous_justified_epoch 4 small_state))) ∧
  Z.testbit
    (set_justification_bitfield 1
       (set_justified_epoch 6
          (set_previous_justified_epoch 4 small_state))).(justification_bitfield)
    1 = false ∧
  (set_justification_bitfield 1
     (set_justified_epoch 6
        (set_previous_justified_epoch 4 small_state))).(finalized_epoch)
  = small_state.(finalized_epoch).
Proof.
  split; [reflexivity |]. split; [reflexivity |].
  exact (process_justification_no_finality_without_bit_1
           (slot_epochs_env (0, 300) no_committees no_winning_root 0)
           small_state small_config _ eq_refl eq_refl).
Defined.

Lemma process_justification_keeps_order_witness :
  current_epoch both_epochs_env advancing_state small_config.(EPOCH_LENGTH)
  = Ok 6 ∧
  previous_epoch both_epochs_env advancing_state small_config.(EPOCH_LENGTH)
    small_config.(GENESIS_EPOCH) = Ok 5 ∧
  5 <= 6 ∧
  advancing_state.(finalized_epoch) <= advancing_state.(previous_justified_epoch) ∧
  advancing_state.(previous_justified_epoch) <= advancing_state.(justified_epoch) ∧
  advancing_state.(justified_epoch) <= 5 ∧
  process_justification both_epochs_env advancing_state small_config
  = Ok advancing_state_after ∧
  advancing_state_after.(finalized_epoch)
  <= advancing_state_after.(previous_justified_epoch) ∧
  advancing_state_after.(previous_justified_epoch)
  <= advancing_state_after.(justified_epoch) ∧
  advancing_state_after.(justified_epoch) <= 6.
Proof.
  assert (H1 : 5 <= 6) by lia.
  assert (H2 : advancing_state.(finalized_epoch)
               <= advancing_state.(previous_justified_epoch)) by (cbn; lia).
  assert (H3 : advancing_state.(previous_justified_epoch)
               <= advancing_state.(justified_epoch)) by (cbn; lia).
  assert (H4 : advancing_state.(justified_epoch) <= 5) by (cbn; lia).
  split; [reflexivity |]. split; [reflexivity |].
  split; [exact H1 |]. split; [exact H2 |]. split; [exact H3 |].
  split; [exact H4 |]. split; [reflexivity |].
  exact (process_justification_keeps_order both_epochs_env advancing_state
           small_config advancing_state_after 6 5 eq_refl eq_refl H1 H2 H3 H4
           eq_refl).
Defined.

(** ** More on crosslinks *)

Lemma ret_bind {A B} (a : A) (f : A → result B) : Ok a ≫= f = f a.
Proof. reflexivity. Qed.

Lemma foldM_invariant {A B} (P : A → Prop) (f : A → B → result A) :
  (∀ a x a', P a → f a x = Ok a' → P a') →
  ∀ l a a', P a → foldM f a l = Ok a' → P a'.
Proof.
  intros Hstep l. induction l as [| x l IH]; intros a a' Ha H; cbn in H.
  - now injection H as <-.
  - bind_inv H a1 Ha1. eapply IH; [| exact H]. eapply Hstep; eassumption.
Qed.

Lemma update_tuple_item_insert {A} (l l' : list A) (i : Z) (v : A) :
  update_tuple_item l i v = Ok l' →
  ∃ k : nat, (k < length l)%nat ∧ l' = <[k := v]> l.
Proof.
  unfold update_tuple_item.
  set (j := if i <? 0 then i + Z.of_nat (length l) else i).
  destruct (Z.leb_spec 0 j); [| discriminate].
  destruct (Z.ltb_spec j (Z.of_nat (length l))); [| discriminate].
  cbn [andb]. intros [= <-]. exists (Z.to_nat j). split; [lia | reflexivity].
Qed.

Lemma set_latest_crosslinks_same (state : BeaconState) :
  set_latest_crosslinks state.(latest_crosslinks) state = state.
Proof. destruct state; reflexivity. Qed.

Lemma latest_crosslinks_set (records : list CrosslinkRecord) (state : BeaconState) :
  (set_latest_crosslinks records state).(latest_crosslinks) = records.
Proof. destruct state; reflexivity. Qed.

Section CrosslinksMore.

Variable env : Env.

Lemma crosslink_committee_step_inv state config attestations records
    committee_shard records' :
  crosslink_committee_step env state config attestations records
    committee_shard = Ok records' →
  records' = records
  ∨ ∃ (current : Z) (root : Hash32) (k : nat),
      current_epoch env state config.(EPOCH_LENGTH) = Ok current ∧
      (k < length records)%nat ∧
      records'
      = <[k := {| epoch := current; shard_block_root := root |}]> records.
Proof.
  unfold crosslink_committee_step. destruct committee_shard as [committee shard].
  destruct (get_winning_root env state shard _ _ _) as [[root balance] | e].
  - intros H. bind_inv H committee_balance Hcommittee.
    destruct (3 * balance >=? 2 * committee_balance).
    + bind_inv H current Hcur.
      apply update_tuple_item_insert in H. destruct H as (k & Hk & ->).
      right. exists current, root, k. auto.
    + injection H as <-. now left.
  - destruct e; try discriminate. intros [= <-]. now left.
Qed.

Lemma crosslink_committee_step_advances state config attestations before
    records committee_shard records' :
  crosslinks_advanced (current_epoch env state config.(EPOCH_LENGTH))
    before records →
  crosslink_committee_step env state config attestations records
    committee_shard = Ok records' →
  crosslinks_advanced (current_epoch env state config.(EPOCH_LENGTH))
    before records'.
Proof.
  intros [Hlen Hrec] H. apply crosslink_committee_step_inv in H.
  destruct H as [-> | (current & root & k & Hcur & Hk & ->)];
    [split; assumption |].
  split; [now rewrite length_insert |].
  intros i record Hi.
  destruct (decide (k = i)) as [<- | Hne].
  - rewrite list_lookup_insert_eq in Hi by assumption.
    injection Hi as <-. right. exact Hcur.
  - rewrite list_lookup_insert_ne in Hi by assumption. now apply Hrec.
Qed.

Lemma process_crosslinks_run state config state' :
  process_crosslinks env state config = Ok state' →
  ∃ attestations first_slot last_slot records,
    foldM (crosslink_slot_step env state config attestations)
      state.(latest_crosslinks) (Py.range first_slot last_slot) = Ok records ∧
    state' = set_latest_crosslinks records state.
Proof.
  unfold process_crosslinks. intros H.
  bind_inv H pea Hpea. bind_inv H cea Hcea. bind_inv H prev Hprev.
  bind_inv H next Hnext. bind_inv H records Hrecords.
  injection H as <-. eauto 6.
Qed.

(** X21: [process_crosslinks] keeps the number of crosslink records, and every
    record of the result is the input's record of the same shard or a record
    of the epoch [state.current_epoch] returns. *)
Lemma process_crosslinks_advances state config state' :
  process_crosslinks env state config = Ok state' →
  crosslinks_advanced (current_epoch env state config.(EPOCH_LENGTH))
    state.(latest_crosslinks) state'.(latest_crosslinks).
Proof.
  intros H. apply process_crosslinks_run in H.
  destruct H as (attestations & first_slot & last_slot & records & Hfold & ->).
  rewrite latest_crosslinks_set.
  revert Hfold.
  apply (foldM_invariant
           (crosslinks_advanced (current_epoch env state config.(EPOCH_LENGTH))
              state.(latest_crosslinks))).
  - intros lc slot lc' Hlc Hslot. unfold crosslink_slot_step in Hslot.
    bind_inv Hslot committees Hcommittees. revert Hslot.
    apply foldM_invariant; [| exact Hlc].
    intros a x a'. apply crosslink_committee_step_advances.
  - split; [reflexivity | auto].
Qed.

(** X22: When [get_winning_root] finds no winning root for any shard and the
    other collaborators return, [process_crosslinks] returns the state as it
    was: NoWinningRootError does not leave it. *)
Lemma process_crosslinks_without_winning_roots state config :
  (∀ shard attestations,
     get_winning_root env state shard attestations
       config.(MAX_DEPOSIT_AMOUNT) (CommitteeConfig config)
     = Raise NoWinningRootError) →
  (∃ attestations,
     get_previous_epoch_attestations env state config.(EPOCH_LENGTH)
       config.(GENESIS_EPOCH) = Ok attestations) →
  (∃ attestations,
     get_current_epoch_attestations env state config.(EPOCH_LENGTH)
     = Ok attestations) →
  (∃ previous,
     previous_epoch env state config.(EPOCH_LENGTH) config.(GENESIS_EPOCH)
     = Ok previous) →
  (∃ next, next_epoch env state config.(EPOCH_LENGTH) = Ok next) →
  (∀ slot, ∃ committees,
     get_crosslink_committees_at_slot env state slot (CommitteeConfig config)
     = Ok committees) →
  process_crosslinks env state config = Ok state.
Proof.
  intros Hroot [pea Hpea] [cea Hcea] [prev Hprev] [next Hnext] Hcommittees.
  unfold process_crosslinks.
  rewrite Hpea. cbn. rewrite Hcea. cbn. rewrite Hprev. cbn. rewrite Hnext. cbn.
  assert (Hstep : ∀ committees records,
            foldM (crosslink_committee_step env state config (pea ++ cea))
              records committees = Ok records).
  { induction committees as [| [committee shard] rest IH]; intros records;
      cbn; [reflexivity |].
    rewrite Hroot. cbn. apply IH. }
  assert (Hslots : ∀ slots records,
            foldM (crosslink_slot_step env state config (pea ++ cea))
              records slots = Ok records).
  { assert (Hslot : ∀ slot records,
              crosslink_slot_step env state config (pea ++ cea) records slot
              = Ok records).
    { intros slot records. unfold crosslink_slot_step.
      destruct (Hcommittees slot) as [committees Hc]. rewrite Hc.
      rewrite ret_bind. apply Hstep. }
    induction slots as [| slot rest IH]; intros records; cbn [foldM];
      [reflexivity |].
    rewrite Hslot, ret_bind. apply IH. }
  rewrite Hslots. cbn. now rewrite set_latest_crosslinks_same.
Qed.

End CrosslinksMore.

Lemma process_crosslinks_advances_witness :
  process_crosslinks at_threshold_env small_state small_config
  = Ok small_state_crosslinked ∧
  crosslinks_advanced
    (current_epoch at_threshold_env small_state small_config.(EPOCH_LENGTH))
    small_state.(latest_crosslinks) small_state_crosslinked.(latest_crosslinks).
Proof.
  split; [reflexivity |].
  exact (process_crosslinks_advances at_threshold_env small_state small_config
           small_state_crosslinked eq_refl).
Defined.

Lemma process_crosslinks_without_winning_roots_witness :
  process_crosslinks
    (slot_epochs_env (0, 0) one_committee no_winning_root 1)
    small_state small_config
  = Ok small_state.
Proof.
  apply (process_crosslinks_without_winning_roots
           (slot_epochs_env (0, 0) one_committee no_winning_root 1)
           small_state small_config).
  - intros shard attestations. reflexivity.
  - eexists. reflexivity.
  - eexists. reflexivity.
  - eexists. reflexivity.
  - eexists. reflexivity.
  - intros slot. eexists. reflexivity.
Defined.

(** ** More on the validator registry *)

Lemma committee_shards_map (start shard_count : Z) (indices shards : list Z) :
  committee_shards start shard_count indices = Ok shards →
  shards = map (λ i, (start + i) mod shard_count) indices.
Proof.
  revert shards. induction indices as [| i rest IH]; intros shards H; cbn in H.
  - now injection H as <-.
  - bind_inv H shard Hshard. bind_inv H others Hothers. injection H as <-.
    unfold Py.modulo in Hshard.
    destruct (shard_count =? 0); [discriminate |]. injection Hshard as <-.
    cbn. f_equal. now apply IH.
Qed.

Lemma committee_shards_ok (start shard_count : Z) (indices : list Z) :
  shard_count ≠ 0 →
  committee_shards start shard_count indices
  = Ok (map (λ i, (start + i) mod shard_count) indices).
Proof.
  intros Hsc. induction indices as [| i rest IH]; cbn; [reflexivity |].
  rewrite modulo_ok by assumption. rewrite ret_bind, IH. reflexivity.
Qed.

Lemma committee_shards_defined (start shard_count : Z) (indices shards : list Z) :
  committee_shards start shard_count indices = Ok shards →
  shard_count ≠ 0 ∨ indices = [].
Proof.
  destruct indices as [| i rest]; [now right |]. cbn. intros H.
  bind_inv H shard Hshard. unfold Py.modulo in Hshard.
  destruct (Z.eqb_spec shard_count 0); [discriminate | now left].
Qed.

Lemma Forall_same_elements {A} (P : A → Prop) (l1 l2 : list A) :
  (∀ x, x ∈ l1 ↔ x ∈ l2) → Forall P l1 ↔ Forall P l2.
Proof.
  intros Hsame. rewrite !List.Forall_forall.
  split; intros H x Hx; apply H; apply list_elem_of_In;
    apply list_elem_of_In in Hx; now apply Hsame.
Qed.

Lemma crosslinks_newer_than_update_true (state : BeaconState) (shards : list Z) :
  crosslinks_newer_than_update state shards = Ok true
  ↔ Forall
      (λ shard,
         ∃ crosslink,
           Py.getitem state.(latest_crosslinks) shard = Ok crosslink ∧
           state.(validator_registry_update_epoch) < crosslink.(epoch))
      shards.
Proof.
  induction shards as [| shard rest IH]; cbn.
  - split; [constructor | reflexivity].
  - split.
    + intros H. bind_inv H crosslink Hc.
      destruct (Z.leb_spec crosslink.(epoch)
                  state.(validator_registry_update_epoch)); [discriminate |].
      constructor; [eauto | now apply IH].
    + intros Hall. inversion Hall as [| ? ? (crosslink & Hc & Hnew) Hrest]; subst.
      rewrite Hc. cbn.
      destruct (Z.leb_spec crosslink.(epoch)
                  state.(validator_registry_update_epoch)); [lia |].
      now apply IH.
Qed.

Section RegistryMore.

Variable env : Env.

(** X23: Where iterating over a set visits its elements and nothing else,
    the update check answers (False, 0), without asking for the committees,
    when nothing was finalized after the last registry update; it answers
    (True, n) exactly when something was, n is the committee count, the
    shards [(current_epoch_start_shard + i) % SHARD_COUNT] for [i] in
    [range(n)] can be computed, and each of them has a crosslink newer than
    that update; with False the count is 0. *)
Lemma check_if_update_validator_registry_sound (state : BeaconState)
    (config : BeaconConfig) :
  set_visits_elements env →
  (state.(finalized_epoch) <= state.(validator_registry_update_epoch) →
   _check_if_update_validator_registry env state config = Ok (false, 0))
  ∧ (∀ n,
       _check_if_update_validator_registry env state config = Ok (true, n)
       ↔ state.(validator_registry_update_epoch) < state.(finalized_epoch) ∧
         get_current_epoch_committee_count env state config.(SHARD_COUNT)
           config.(EPOCH_LENGTH) config.(TARGET_COMMITTEE_SIZE) = Ok n ∧
         (config.(SHARD_COUNT) ≠ 0 ∨ n <= 0) ∧
         Forall
           (λ shard,
              ∃ crosslink,
                Py.getitem state.(latest_crosslinks) shard = Ok crosslink ∧
                state.(validator_registry_update_epoch) < crosslink.(epoch))
           (map (λ i, (state.(current_epoch_start_shard) + i)
                        mod config.(SHARD_COUNT))
              (Py.range 0 n)))
  ∧ (∀ n,
       _check_if_update_validator_registry env state config = Ok (false, n) →
       n = 0).
Proof.
  intros Hset. unfold _check_if_update_validator_registry.
  destruct (Z.leb_spec state.(finalized_epoch)
              state.(validator_registry_update_epoch)) as [Hle | Hgt].
  - split; [reflexivity |].
    split; [intros n; split; [discriminate | lia]
           | intros n [= <-]; reflexivity].
  - split; [lia |]. split.
    + intros n. split.
      * intros H. bind_inv H count Hcount. bind_inv H shards Hshards.
        bind_inv H newer Hnewer. destruct newer; [| discriminate].
        injection H as <-.
        pose proof (committee_shards_defined _ _ _ _ Hshards) as Hdef.
        apply committee_shards_map in Hshards. subst shards.
        apply crosslinks_newer_than_update_true in Hnewer.
        apply (proj1 (Forall_same_elements _ _ _ (Hset _))) in Hnewer.
        split; [lia |]. split; [assumption |]. split; [| assumption].
        destruct Hdef as [Hsc | Hnil]; [now left | right].
        destruct (Z.leb_spec count 0) as [| Hpos]; [assumption |].
        unfold Py.range in Hnil. rewrite seqZ_cons in Hnil by lia.
        discriminate.
      * intros (_ & Hcount & Hdef & Hall). rewrite Hcount, ret_bind.
        assert (Hshards : committee_shards state.(current_epoch_start_shard)
                            config.(SHARD_COUNT) (Py.range 0 n)
                          = Ok (map (λ i, (state.(current_epoch_start_shard) + i)
                                            mod config.(SHARD_COUNT))
                                  (Py.range 0 n))).
        { destruct Hdef as [Hsc | Hn].
          - now apply committee_shards_ok.
          - unfold Py.range. rewrite seqZ_nil by lia. reflexivity. }
        rewrite Hshards, ret_bind.
        apply (proj2 (Forall_same_elements _ _ _ (Hset _))) in Hall.
        apply crosslinks_newer_than_update_true in Hall.
        now rewrite Hall.
    + intros n H. bind_inv H count Hcount. bind_inv H shards Hshards.
      bind_inv H newer Hnewer. destruct newer; [discriminate |].
      now injection H as <-.
Qed.

(** X24: [process_validator_registry] replaces the six shuffling fields and no
    other: the registry, the balances and validator_registry_update_epoch
    among the rest are as in the input, also where the registry update is
    due. *)
Lemma process_validator_registry_frame state config state' :
  process_validator_registry env state config = Ok state' →
  registry_frame state' = registry_frame state.
Proof.
  intros H. apply process_validator_registry_inv in H.
  destruct H as (need & n & _ & Hcases).
  destruct Hcases
    as [(_ & next & shard & seed & ->)
       | (_ & current & _ & [(_ & next & seed & ->) | (_ & ->)])];
    destruct state; reflexivity.
Qed.

(** X25: Where the update is due, the new current_calculation_epoch is the next
    epoch and the start shard moves on by the committee count, modulo
    SHARD_COUNT, which is then not zero; where it is not due the start shard
    stays. *)
Lemma process_validator_registry_rotation state config state' need n :
  _check_if_update_validator_registry env (registry_snapshot state) config
  = Ok (need, n) →
  process_validator_registry env state config = Ok state' →
  (need = true →
   config.(SHARD_COUNT) ≠ 0 ∧
   next_epoch env (registry_snapshot state) config.(EPOCH_LENGTH)
   = Ok state'.(current_calculation_epoch) ∧
   state'.(current_epoch_start_shard)
   = (state.(current_epoch_start_shard) + n) mod config.(SHARD_COUNT))
  ∧ (need = false →
     state'.(current_epoch_start_shard) = state.(current_epoch_start_shard)).
Proof.
  intros Hcheck H. unfold process_validator_registry in H.
  fold (registry_snapshot state) in H.
  rewrite Hcheck, ret_bind in H.
  assert (Hstart : (registry_snapshot state).(current_epoch_start_shard)
                   = state.(current_epoch_start_shard))
    by (destruct state; reflexivity).
  destruct need.
  - split; [| discriminate]. intros _.
    unfold update_validator_registry in H.
    bind_inv H next Hnext. bind_inv H start_shard Hshard.
    bind_inv H seed Hseed. injection H as <-.
    unfold Py.modulo in Hshard.
    destruct (Z.eqb_spec config.(SHARD_COUNT) 0) as [| Hsc]; [discriminate |].
    injection Hshard as <-.
    split; [assumption |].
    split.
    + rewrite Hnext. f_equal. destruct state; reflexivity.
    + rewrite <- Hstart. destruct state; reflexivity.
  - split; [discriminate |]. intros _.
    bind_inv H current Hcur. bind_inv H power Hpower.
    destruct power.
    + bind_inv H next Hnext. bind_inv H seed Hseed. injection H as <-.
      destruct state; reflexivity.
    + injection H as <-. destruct state; reflexivity.
Qed.

End RegistryMore.

Lemma process_validator_registry_frame_witness :
  process_validator_registry registry_env due_state small_config
  = Ok (registry_updated due_state 7 0 (a_root x26)) ∧
  registry_frame (registry_updated due_state 7 0 (a_root x26))
  = registry_frame due_state.
Proof.
  split; [reflexivity |].
  exact (process_validator_registry_frame registry_env due_state small_config
           (registry_updated due_state 7 0 (a_root x26)) eq_refl).
Defined.

Lemma process_validator_registry_rotation_witness :
  _check_if_update_validator_registry registry_env
    (registry_snapshot due_state) small_config = Ok (true, 1) ∧
  process_validator_registry registry_env due_state small_config
  = Ok (registry_updated due_state 7 0 (a_root x26)) ∧
  (registry_updated due_state 7 0 (a_root x26)).(current_epoch_start_shard)
  = (due_state.(current_epoch_start_shard) + 1) mod small_config.(SHARD_COUNT).
Proof.
  split; [reflexivity |]. split; [reflexivity |].
  exact (proj2 (proj2 (proj1 (process_validator_registry_rotation registry_env
                                due_state small_config
                                (registry_updated due_state 7 0 (a_root x26))
                                true 1 eq_refl eq_refl) eq_refl))).
Defined.

(** ** More on the final updates *)

Lemma update_tuple_item_one_slot {A} (l l' : list A) (i : Z) (v : A) :
  update_tuple_item l i v = Ok l' → one_slot_apart l l'.
Proof.
  intros H. apply update_tuple_item_insert in H. destruct H as (k & Hk & ->).
  split; [apply length_insert |].
  exists k. intros j Hj. now apply list_lookup_insert_ne.
Qed.

Lemma prune_attestations (epoch_length current : Z)
    (kept attestations pruned : list Attestation) :
  foldM
    (λ kept attestation,
       target ← slot_to_epoch attestation.(data).(AttestationData.slot)
                  epoch_length;
       Ok (if target >=? current then kept ++ [attestation] else kept))
    kept attestations = Ok pruned →
  pruned
  = kept ++ filter
              (λ attestation,
                 current <= attestation.(data).(AttestationData.slot)
                            / epoch_length)
              attestations.
Proof.
  revert kept. induction attestations as [| a rest IH]; intros kept H;
    cbn [foldM] in H.
  - injection H as <-. now rewrite filter_nil, app_nil_r.
  - bind_inv H kept' Hkept. bind_inv Hkept target Htarget.
    unfold slot_to_epoch, Py.floordiv in Htarget.
    destruct (epoch_length =? 0); [discriminate |]. injection Htarget as <-.
    injection Hkept as <-. apply IH in H. rewrite H, filter_cons.
    destruct (Z.geb_spec (AttestationData.slot (data a) / epoch_length) current);
      destruct (decide (current <= AttestationData.slot (data a) / epoch_length));
      try lia.
    + now rewrite <- app_assoc.
    + reflexivity.
Qed.

Section FinalUpdatesMore.

Variable env : Env.

(** X26: [_update_latest_active_index_roots] replaces latest_active_index_roots
    and no other field, by a tuple of the same length that differs from the
    old one in at most one slot; for a positive buffer length that slot is
    [(next_epoch + ACTIVATION_EXIT_DELAY) % LATEST_ACTIVE_INDEX_ROOTS_LENGTH]
    and holds the hash of the 32-byte big-endian indices of the validators
    active at that epoch. *)
Lemma update_latest_active_index_roots_one_slot state committee_config state1 :
  _update_latest_active_index_roots env state committee_config = Ok state1 →
  ∃ next joined,
    next_epoch env state committee_config.(EPOCH_LENGTH) = Ok next ∧
    join_index_bytes
      (get_active_validator_indices env state.(validator_registry)
         (next + committee_config.(ACTIVATION_EXIT_DELAY))) = Ok joined ∧
    state1
    = set_latest_active_index_roots state1.(latest_active_index_roots) state ∧
    one_slot_apart state.(latest_active_index_roots)
      state1.(latest_active_index_roots) ∧
    (0 < committee_config.(LATEST_ACTIVE_INDEX_ROOTS_LENGTH) →
     state1.(latest_active_index_roots)
       !! Z.to_nat ((next + committee_config.(ACTIVATION_EXIT_DELAY))
                    mod committee_config.(LATEST_ACTIVE_INDEX_ROOTS_LENGTH))
     = Some (hash_eth2 env joined)).
Proof.
  unfold _update_latest_active_index_roots. intros H.
  bind_inv H next Hnext. bind_inv H joined Hjoined. bind_inv H i Hi.
  bind_inv H roots Hroots. injection H as <-.
  exists next, joined.
  assert (E : latest_active_index_roots
                (set_latest_active_index_roots roots state) = roots)
    by (destruct state; reflexivity).
  rewrite E.
  split; [assumption |]. split; [assumption |]. split; [reflexivity |].
  split; [eapply update_tuple_item_one_slot; eassumption |].
  intros Hpos. rewrite modulo_ok in Hi by lia. injection Hi as <-.
  eapply update_tuple_item_lookup; [| eassumption].
  apply Z.mod_pos_bound. lia.
Qed.

Lemma update_latest_active_index_roots_run state committee_config state1 :
  _update_latest_active_index_roots env state committee_config = Ok state1 →
  ∃ roots,
    one_slot_apart state.(latest_active_index_roots) roots ∧
    state1 = set_latest_active_index_roots roots state.
Proof.
  unfold _update_latest_active_index_roots. intros H.
  bind_inv H next Hnext. bind_inv H joined Hjoined. bind_inv H i Hi.
  bind_inv H roots Hroots. injection H as <-.
  exists roots. split; [| reflexivity].
  eapply update_tuple_item_one_slot; eassumption.
Qed.

Lemma process_final_updates_run state config state' :
  process_final_updates env state config = Ok state' →
  ∃ current roots balances mixes attestations,
    current_epoch env state config.(EPOCH_LENGTH) = Ok current ∧
    one_slot_apart state.(latest_active_index_roots) roots ∧
    one_slot_apart state.(latest_slashed_balances) balances ∧
    one_slot_apart state.(latest_randao_mixes) mixes ∧
    attestations
    = filter
        (λ attestation,
           current <= attestation.(data).(AttestationData.slot)
                      / config.(EPOCH_LENGTH))
        state.(latest_attestations) ∧
    state'
    = set_latest_attestations attestations
        (set_latest_randao_mixes mixes
           (set_latest_slashed_balances balances
              (set_latest_active_index_roots roots state))).
Proof.
  unfold process_final_updates. intros H.
  bind_inv H current Hcur. bind_inv H next Hnext. bind_inv H state1 Hstate1.
  apply update_latest_active_index_roots_run in Hstate1.
  destruct Hstate1 as (roots & Hroots & ->).
  bind_inv H next_index Hni. bind_inv H current_index Hci.
  bind_inv H slashed_balance Hsb. bind_inv H balances Hbalances.
  bind_inv H mix_index Hmi. bind_inv H randao_mix Hmix.
  bind_inv H mixes Hmixes. bind_inv H attestations Hatts. injection H as <-.
  assert (E1 : latest_slashed_balances (set_latest_active_index_roots roots state)
               = latest_slashed_balances state) by (destruct state; reflexivity).
  assert (E2 : latest_randao_mixes (set_latest_active_index_roots roots state)
               = latest_randao_mixes state) by (destruct state; reflexivity).
  assert (E3 : latest_attestations
                 (set_latest_randao_mixes mixes
                    (set_latest_slashed_balances balances
                       (set_latest_active_index_roots roots state)))
               = latest_attestations state) by (destruct state; reflexivity).
  rewrite E1 in Hbalances. rewrite E2 in Hmixes. rewrite E3 in Hatts.
  apply update_tuple_item_one_slot in Hbalances, Hmixes.
  apply prune_attestations in Hatts. rewrite app_nil_l in Hatts.
  exists current, roots, balances, mixes, attestations. auto 10.
Qed.

(** X27: [process_final_updates] replaces four fields and no other, and each of
    the three ring buffers by a tuple of the same length that differs from
    the old one in at most one slot. *)
Lemma process_final_updates_frame state config state' :
  process_final_updates env state config = Ok state' →
  final_updates_frame state' = final_updates_frame state ∧
  one_slot_apart state.(latest_active_index_roots)
    state'.(latest_active_index_roots) ∧
  one_slot_apart state.(latest_slashed_balances)
    state'.(latest_slashed_balances) ∧
  one_slot_apart state.(latest_randao_mixes) state'.(latest_randao_mixes).
Proof.
  intros H. apply process_final_updates_run in H.
  destruct H as (current & roots & balances & mixes & attestations
                 & _ & Hroots & Hbalances & Hmixes & _ & ->).
  destruct state; cbn in *. auto.
Qed.

(** X28: [process_final_updates] keeps, in their order, exactly the attestations
    whose slot is of the current epoch or a later one. *)
Lemma process_final_updates_prunes state config state' :
  process_final_updates env state config = Ok state' →
  ∃ current,
    current_epoch env state config.(EPOCH_LENGTH) = Ok current ∧
    state'.(latest_attestations)
    = filter
        (λ attestation,
           current <= attestation.(data).(AttestationData.slot)
                      / config.(EPOCH_LENGTH))
        state.(latest_attestations).
Proof.
  intros H. apply process_final_updates_run in H.
  destruct H as (current & roots & balances & mixes & attestations
                 & Hcur & _ & _ & _ & -> & ->).
  exists current. split; [assumption |]. destruct state; reflexivity.
Qed.

End FinalUpdatesMore.

Lemma update_latest_active_index_roots_one_slot_witness :
  _update_latest_active_index_roots registry_env small_state small_config
  = Ok (set_latest_active_index_roots
          (map a_root [x00; x31; x32; x33; x34; x35; x36; x37]) small_state) ∧
  one_slot_apart small_state.(latest_active_index_roots)
    (set_latest_active_index_roots
       (map a_root [x00; x31; x32; x33; x34; x35; x36; x37])
       small_state).(latest_active_index_roots).
Proof.
  split; [reflexivity |].
  destruct (update_latest_active_index_roots_one_slot registry_env small_state
              small_config
              (set_latest_active_index_roots
                 (map a_root [x00; x31; x32; x33; x34; x35; x36; x37])
                 small_state) eq_refl)
    as (next & joined & _ & _ & _ & Hone & _).
  exact Hone.
Defined.

Lemma process_final_updates_frame_witness :
  process_final_updates registry_env small_state small_config
  = Ok small_state_final ∧
  final_updates_frame small_state_final = final_updates_frame small_state.
Proof.
  split; [reflexivity |].
  exact (proj1 (process_final_updates_frame registry_env small_state
                  small_config small_state_final eq_refl)).
Defined.

(** Of the attestations at the slots 19, 24, 23 and 27, epoch 6 keeps those
    at 24 and 27. *)
Example final_updates_prune_run :
  process_final_updates registry_env attested_state small_config
  = Ok attested_state_final.
Proof. reflexivity. Qed.

Lemma process_final_updates_prunes_witness :
  process_final_updates registry_env attested_state small_config
  = Ok attested_state_final ∧
  ∃ current,
    current_epoch registry_env attested_state small_config.(EPOCH_LENGTH)
    = Ok current ∧
    attested_state_final.(latest_attestations)
    = filter
        (λ attestation,
           current <= attestation.(data).(AttestationData.slot)
                      / small_config.(EPOCH_LENGTH))
        attested_state.(latest_attestations).
Proof.
  split; [reflexivity |].
  exact (process_final_updates_prunes registry_env attested_state small_config
           attested_state_final eq_refl).
Defined.

(** ** The two-thirds rule over a whole run of [process_crosslinks] *)

Lemma foldM_app {A B} (f : A → B → result A) (a : A) (l1 l2 : list B) :
  foldM f a (l1 ++ l2) = foldM f a l1 ≫= λ a', foldM f a' l2.
Proof.
  revert a. induction l1 as [| x l1 IH]; intros a; cbn; [reflexivity |].
  destruct (f a x); cbn; [apply IH | reflexivity].
Qed.

Section CrosslinkRuns.

Variable env : Env.

(** The two loops of [process_crosslinks] are one loop over the committees
    of all its slots in order. *)
Lemma crosslink_slots_flatten state config attestations slots per_slot :
  committees_of_slots env state config slots per_slot →
  ∀ records,
    foldM (crosslink_slot_step env state config attestations) records slots
    = foldM (crosslink_committee_step env state config attestations) records
        (concat per_slot).
Proof.
  induction 1 as [| slot committees slots per_slot Hslot _ IH];
    intros records; [reflexivity |].
  cbn [foldM concat]. rewrite foldM_app.
  assert (E : crosslink_slot_step env state config attestations records slot
              = foldM (crosslink_committee_step env state config attestations)
                  records committees)
    by (unfold crosslink_slot_step; now rewrite Hslot, ret_bind).
  rewrite E.
  destruct (foldM _ records committees) as [records' | e]; cbn;
    [apply IH | reflexivity].
Qed.

Lemma crosslink_committee_step_cases state config attestations records
    committee shard records' :
  crosslink_committee_step env state config attestations records
    (committee, shard) = Ok records' →
  records' = records
  ∨ ∃ (current : Z) (root : Hash32),
      current_epoch env state config.(EPOCH_LENGTH) = Ok current ∧
      update_tuple_item records shard
        {| epoch := current; shard_block_root := root |} = Ok records'.
Proof.
  unfold crosslink_committee_step.
  destruct (get_winning_root env state shard _ _ _) as [[root balance] | e].
  - intros H. bind_inv H committee_balance Hcommittee.
    destruct (3 * balance >=? 2 * committee_balance).
    + bind_inv H current Hcur. right. eauto.
    + injection H as <-. now left.
  - destruct e; try discriminate. intros [= <-]. now left.
Qed.

Lemma update_tuple_item_other {A} (l l' : list A) (i k : Z) (v : A) :
  0 <= i → 0 <= k → i ≠ k →
  update_tuple_item l i v = Ok l' → l' !! Z.to_nat k = l !! Z.to_nat k.
Proof.
  intros Hi Hk Hne. unfold update_tuple_item.
  destruct (Z.ltb_spec i 0); [lia |].
  destruct (_ && _); [| discriminate].
  intros [= <-]. apply list_lookup_insert_ne. lia.
Qed.

(** Committees of other shards leave the record of a shard as it is. *)
Lemma other_shards_keep_record state config attestations shard committees :
  0 <= shard →
  Forall (λ committee_shard, 0 <= snd committee_shard
                             ∧ snd committee_shard ≠ shard) committees →
  ∀ records records',
    foldM (crosslink_committee_step env state config attestations) records
      committees = Ok records' →
    records' !! Z.to_nat shard = records !! Z.to_nat shard.
Proof.
  intros Hshard Hall.
  induction Hall as [| [committee other] rest [Hother Hne] _ IH];
    intros records records' H; cbn [foldM] in H.
  - now injection H as <-.
  - bind_inv H records1 Hstep. rewrite (IH _ _ H).
    apply crosslink_committee_step_cases in Hstep.
    destruct Hstep as [-> | (current & root & _ & Hupdate)]; [reflexivity |].
    cbn [snd] in *. eapply update_tuple_item_other; [| | | eassumption]; lia.
Qed.

(** C4: take a run of [process_crosslinks] and any committee of any of its
    slots for which [get_winning_root] returns a root.  At the turn of that
    committee the record of its shard is replaced with [{epoch:
    current_epoch, shard_block_root: winning_root}] when three times the
    attesting balance is at least twice the total effective balance of the
    committee, and latest_crosslinks is passed on as it is when it is less;
    the state returned carries the crosslinks the remaining committees leave.
    For a shard no other committee of the run has, the record of the state
    returned is then the new record at or above the threshold and the record
    of the input state below it, as with a total of 300 and an attesting
    balance of 150. *)
Theorem process_crosslinks_two_thirds
    (state : BeaconState) (config : BeaconConfig) (state' : BeaconState)
    (previous_epoch_attestations current_epoch_attestations : list Attestation)
    (previous next : Z) (per_slot : list (list (list Z * Z)))
    (before after : list (list Z * Z))
    (crosslink_committee : list Z) (shard : Z)
    (winning_root : Hash32) (total_attesting_balance total_balance : Z) :
  get_previous_epoch_attestations env state config.(EPOCH_LENGTH)
    config.(GENESIS_EPOCH) = Ok previous_epoch_attestations →
  get_current_epoch_attestations env state config.(EPOCH_LENGTH)
  = Ok current_epoch_attestations →
  previous_epoch env state config.(EPOCH_LENGTH) config.(GENESIS_EPOCH)
  = Ok previous →
  next_epoch env state config.(EPOCH_LENGTH) = Ok next →
  committees_of_slots env state config
    (Py.range (get_epoch_start_slot previous config.(EPOCH_LENGTH))
       (get_epoch_start_slot next config.(EPOCH_LENGTH)))
    per_slot →
  concat per_slot = before ++ (crosslink_committee, shard) :: after →
  get_winning_root env state shard
    (_filter_attestations_by_shard
       (previous_epoch_attestations ++ current_epoch_attestations) shard)
    config.(MAX_DEPOSIT_AMOUNT) (CommitteeConfig config)
  = Ok (winning_root, total_attesting_balance) →
  sum_effective_balances state.(validator_balances) crosslink_committee
    config.(MAX_DEPOSIT_AMOUNT) = Ok total_balance →
  process_crosslinks env state config = Ok state' →
  let step :=
    crosslink_committee_step env state config
      (previous_epoch_attestations ++ current_epoch_attestations) in
  (∃ records_before records_after,
     foldM step state.(latest_crosslinks) before = Ok records_before ∧
     foldM step records_after after = Ok state'.(latest_crosslinks) ∧
     (3 * total_attesting_balance >= 2 * total_balance →
      ∃ current,
        current_epoch env state config.(EPOCH_LENGTH) = Ok current ∧
        update_tuple_item records_before shard
          {| epoch := current; shard_block_root := winning_root |}
        = Ok records_after) ∧
     (3 * total_attesting_balance < 2 * total_balance →
      records_after = records_before))
  ∧ (0 <= shard →
     Forall (λ committee_shard, 0 <= snd committee_shard
                                ∧ snd committee_shard ≠ shard)
       (before ++ after) →
     (3 * total_attesting_balance >= 2 * total_balance →
      ∃ current,
        current_epoch env state config.(EPOCH_LENGTH) = Ok current ∧
        state'.(latest_crosslinks) !! Z.to_nat shard
        = Some {| epoch := current; shard_block_root := winning_root |}) ∧
     (3 * total_attesting_balance < 2 * total_balance →
      state'.(latest_crosslinks) !! Z.to_nat shard
      = state.(latest_crosslinks) !! Z.to_nat shard) ∧
     (total_balance = 300 → total_attesting_balance = 150 →
      state'.(latest_crosslinks) !! Z.to_nat shard
      = state.(latest_crosslinks) !! Z.to_nat shard)).
Proof.
  intros Hpea Hcea Hprev Hnext Hslots Hconcat Hroot Hsum H step.
  unfold process_crosslinks in H.
  rewrite Hpea, ret_bind, Hcea, ret_bind, Hprev, ret_bind, Hnext, ret_bind in H.
  rewrite (crosslink_slots_flatten _ _ _ _ _ Hslots), Hconcat in H.
  bind_inv H records Hfold. injection H as <-.
  rewrite latest_crosslinks_set.
  rewrite foldM_app in Hfold. bind_inv Hfold records_before Hbefore.
  cbn [foldM] in Hfold. bind_inv Hfold records_after Hturn.
  fold step in Hbefore, Hturn, Hfold.
  assert (Hrule :
            (3 * total_attesting_balance >= 2 * total_balance →
             ∃ current,
               current_epoch env state config.(EPOCH_LENGTH) = Ok current ∧
               update_tuple_item records_before shard
                 {| epoch := current; shard_block_root := winning_root |}
               = Ok records_after) ∧
            (3 * total_attesting_balance < 2 * total_balance →
             records_after = records_before)).
  { subst step. unfold crosslink_committee_step in Hturn.
    rewrite Hroot, Hsum, ret_bind in Hturn.
    destruct (Z.geb_spec (3 * total_attesting_balance) (2 * total_balance)).
    - split; [intros _ | lia]. bind_inv Hturn current Hcur. eauto.
    - split; [lia | intros _]. now injection Hturn as <-. }
  split; [exists records_before, records_after; tauto |].
  intros Hshard Hothers. apply Forall_app in Hothers.
  destruct Hothers as [Hothers_before Hothers_after].
  pose proof (other_shards_keep_record state config _ shard before Hshard
                Hothers_before _ _ Hbefore) as Hkept_before.
  pose proof (other_shards_keep_record state config _ shard after Hshard
                Hothers_after _ _ Hfold) as Hkept_after.
  destruct Hrule as [Hge Hlt].
  assert (Hbelow : 3 * total_attesting_balance < 2 * total_balance →
                   records !! Z.to_nat shard
                   = state.(latest_crosslinks) !! Z.to_nat shard).
  { intros Hless. rewrite Hkept_after, (Hlt Hless). exact Hkept_before. }
  split; [| split].
  - intros Hmore. destruct (Hge Hmore) as (current & Hcur & Hupdate).
    exists current. split; [assumption |]. rewrite Hkept_after.
    eapply update_tuple_item_lookup; eassumption.
  - exact Hbelow.
  - intros -> ->. apply Hbelow. lia.
Qed.

End CrosslinkRuns.

Lemma small_run_committees_of_slots (env_balance : Z) :
  committees_of_slots
    (slot_epochs_env (0, 0) one_committee (λ _, Ok (a_root x77, env_balance)) 1)
    small_state small_config
    (Py.range (get_epoch_start_slot 5 4) (get_epoch_start_slot 7 4))
    small_run_committees.
Proof. repeat constructor. Qed.

Lemma process_crosslinks_two_thirds_witness :
  process_crosslinks at_threshold_env small_state small_config
  = Ok small_state_crosslinked ∧
  get_winning_root at_threshold_env small_state 1
    (_filter_attestations_by_shard ([] ++ []) 1)
    small_config.(MAX_DEPOSIT_AMOUNT) (CommitteeConfig small_config)
  = Ok (a_root x77, 200) ∧
  sum_effective_balances small_state.(validator_balances) [0; 1; 2]
    small_config.(MAX_DEPOSIT_AMOUNT) = Ok 300 ∧
  ∃ current,
    current_epoch at_threshold_env small_state small_config.(EPOCH_LENGTH)
    = Ok current ∧
    small_state_crosslinked.(latest_crosslinks) !! Z.to_nat 1
    = Some {| epoch := current; shard_block_root := a_root x77 |}.
Proof.
  split; [reflexivity |]. split; [reflexivity |]. split; [reflexivity |].
  destruct (process_crosslinks_two_thirds at_threshold_env small_state
              small_config small_state_crosslinked [] [] 5 7
              small_run_committees [] [] [0; 1; 2] 1 (a_root x77) 200 300
              eq_refl eq_refl eq_refl eq_refl
              (small_run_committees_of_slots 200) eq_refl eq_refl eq_refl
              eq_refl) as [_ Hrecord].
  destruct (Hrecord ltac:(lia) ltac:(constructor)) as (Hge & _ & _).
  apply Hge. lia.
Defined.

Lemma check_if_update_validator_registry_sound_witness :
  set_visits_elements registry_env ∧
  _check_if_update_validator_registry registry_env due_state small_config
  = Ok (true, 1) ∧
  due_state.(validator_registry_update_epoch) < due_state.(finalized_epoch) ∧
  Forall
    (λ shard,
       ∃ crosslink,
         Py.getitem due_state.(latest_crosslinks) shard = Ok crosslink ∧
         due_state.(validator_registry_update_epoch) < crosslink.(epoch))
    (map (λ i, (due_state.(current_epoch_start_shard) + i)
                 mod small_config.(SHARD_COUNT))
       (Py.range 0 1)).
Proof.
  assert (Hset : set_visits_elements registry_env) by (intros l x; reflexivity).
  assert (Hcheck : _check_if_update_validator_registry registry_env due_state
                     small_config = Ok (true, 1)) by reflexivity.
  split; [exact Hset |]. split; [exact Hcheck |].
  destruct (check_if_update_validator_registry_sound registry_env due_state
              small_config Hset) as (_ & Hiff & _).
  destruct (proj1 (Hiff 1) Hcheck) as (Hfinal & _ & _ & Hall).
  split; [exact Hfinal | exact Hall].
Defined.
